(** * Recursive chunk-and-reduce summarization

    A shallow embedding of the summarization engine of
    [deployment/summarizer.py] and of its trimmed-down sibling
    [deployment/summarizer_showcase.py], and the properties the
    specification states about them.

    Modelling choices.
    - A Python [str] is a [string]; each character stands for one code point
      below 256.  [str.split()] with no argument cuts at runs of code points
      for which [str.isspace] holds.
    - Python integers ([len], word counts, thresholds, length arguments) are
      [Z]; a threshold may be negative, as in Python.
    - [nltk.sent_tokenize] and the tokenizer / [model.generate] / decode
      pipeline are capabilities the engine consumes; they are the fields of
      the class [Capabilities].  The model samples ([do_sample=True]), so it
      carries a state that every generation call advances.
    - Every generation call is appended to a trace, with the prompt, the
      keyword arguments and the decoded output, so that "the model is not
      invoked" and "the calls happen in chunk order" are statements about the
      trace.  Logging is not modelled, nor are exceptions raised by the
      model, which the engine does not catch.
    - Python's recursion has no depth guard in the source; the model takes a
      fuel (the number of nested calls that may still be entered) and returns
      [None] when it is used up. *)

From Stdlib Require Import ZArith Lia Ascii Floats.
From stdpp Require Import base list strings gmap.

Local Open Scope Z_scope.
Local Set Warnings "-inexact-float".

(** ** Python text primitives *)

(** [len(x)] of a list. *)
Definition len {A : Type} (l : list A) : Z := Z.of_nat (length l).

(** [str.isspace] on one code point below 256: TAB..CR, FS..US, space,
    NEL (0x85) and NBSP (0xA0). *)
Definition isspace (c : ascii) : bool :=
  let n := nat_of_ascii c in
  ((9 <=? n)%nat && (n <=? 13)%nat) || ((28 <=? n)%nat && (n <=? 32)%nat)
  || (n =? 133)%nat || (n =? 160)%nat.

(** The word under construction, flushed when a separator or the end of the
    text is met. *)
Definition flush (cur : string) : list string :=
  match cur with
  | EmptyString => []
  | _ => [cur]
  end.

Fixpoint split_from (cur : string) (s : string) : list string :=
  match s with
  | EmptyString => flush cur
  | String c s' =>
      if isspace c then flush cur ++ split_from EmptyString s'
      else split_from (cur +:+ String c EmptyString) s'
  end.

(** [s.split()]. *)
Definition split (s : string) : list string := split_from EmptyString s.

(** [len(s.split())], the whitespace-token word count. *)
Definition word_count (s : string) : Z := len (split s).

(** [sep.join(l)]. *)
Fixpoint join (sep : string) (l : list string) : string :=
  match l with
  | [] => EmptyString
  | [x] => x
  | x :: rest => x +:+ sep +:+ join sep rest
  end.

(** Sum of the word counts of a list of texts. *)
Definition total_words (l : list string) : Z :=
  foldr (fun s acc => word_count s + acc) 0 l.

(** ** The consumed capabilities and the call trace *)

(** Values passed as keyword arguments to [model.generate]. *)
Inductive PyValue : Type :=
  | PyInt (z : Z)
  | PyFloat (f : float)
  | PyBool (b : bool).

Definition Kwargs : Type := list (string * PyValue).

(** [kwargs[name]], when present. *)
Fixpoint kwarg (name : string) (kw : Kwargs) : option PyValue :=
  match kw with
  | [] => None
  | (k, v) :: rest => if String.eqb k name then Some v else kwarg name rest
  end.

(** One invocation of the generation capability. *)
Record GenerateCall : Type := mkCall {
  call_prompt : string;
  call_kwargs : Kwargs;
  call_output : string
}.

(** [sent_tokenize] is [nltk.sent_tokenize]; [generate] stands for
    tokenizer (truncating to 512 tokens), [model.generate] and
    [tokenizer.decode] taken together: from the prompt and the keyword
    arguments to the decoded summary, advancing the model's state. *)
Class Capabilities : Type := {
  ModelState : Type;
  sent_tokenize : string -> list string;
  generate : ModelState -> string -> Kwargs -> string * ModelState
}.

Record World {C : Capabilities} : Type := mkWorld {
  model_state : ModelState;
  trace : list GenerateCall
}.

(** Computations that may call the model. *)
Definition Gen {C : Capabilities} (A : Type) : Type := World -> A * World.

Definition ret {C : Capabilities} {A : Type} (a : A) : Gen A := fun w => (a, w).

Definition bind {C : Capabilities} {A B : Type} (m : Gen A) (k : A -> Gen B) : Gen B :=
  fun w => let (a, w') := m w in k a w'.

Notation "x <- m ;; k" := (bind m (fun x => k))
  (at level 100, m at next level, right associativity).

(** The single place where the model runs: the call is appended to the
    trace. *)
Definition invoke_model {C : Capabilities} (prompt : string) (kw : Kwargs) : Gen string :=
  fun w =>
    let (out, st') := generate (model_state w) prompt kw in
    (out, mkWorld _ st' (trace w ++ [mkCall prompt kw out])).

(** [[f(x) for x in l]]: left to right. *)
Fixpoint for_each {C : Capabilities} {A B : Type} (f : A -> Gen B) (l : list A) : Gen (list B) :=
  match l with
  | [] => ret []
  | x :: rest =>
      y <- f x ;;
      ys <- for_each f rest ;;
      ret (y :: ys)
  end.

(** The state of the chunking loop: emitted chunks, running chunk, running
    word count. *)
Definition ChunkState : Type := list string * list string * Z.

(** ** [deployment/summarizer.py] *)
Module Summarizer.

Definition default_max_length : Z := 200.
Definition default_min_length : Z := 30.
Definition default_num_beams : Z := 4.
Definition default_temperature : float := 0.3%float.
Definition default_top_k : Z := 50.
Definition default_top_p : float := 0.95%float.

Definition model_summarize {C : Capabilities} (text_chunk : string)
    (max_length min_length num_beams : Z) (temperature : float)
    (top_k : Z) (top_p : float) : Gen string :=
  let input_text := "summarize : " +:+ text_chunk in
  invoke_model input_text
    [ ("max_length", PyInt max_length);
      ("min_length", PyInt 30);
      ("num_beams", PyInt num_beams);
      ("temperature", PyFloat temperature);
      ("top_k", PyInt top_k);
      ("top_p", PyFloat top_p);
      ("do_sample", PyBool true);
      ("early_stopping", PyBool true) ].

(** [self.model_summarize(chunk)]: every optional argument at its default. *)
Definition model_summarize_default {C : Capabilities} (text_chunk : string) : Gen string :=
  model_summarize text_chunk default_max_length default_min_length
    default_num_beams default_temperature default_top_k default_top_p.

Definition split_into_sentences {C : Capabilities} (text : string) : list string :=
  sent_tokenize text.

(** The body of [for sentence in sentences]. *)
Definition chunk_step (st : ChunkState) (sentence : string) : ChunkState :=
  let '(chunks, current_chunk, current_word_count) := st in
  let sentence_word_count := len (split sentence) in
  if current_word_count + sentence_word_count <=? 300 then
    (chunks, current_chunk ++ [sentence], current_word_count + sentence_word_count)
  else
    (if current_word_count >=? 75 then chunks ++ [join " " current_chunk] else chunks,
     [sentence], sentence_word_count).

Definition chunk_loop (sentences : list string) : ChunkState :=
  fold_left chunk_step sentences ([], [], 0).

Definition chunk_sentences (sentences : list string) : list string :=
  let '(chunks, current_chunk, current_word_count) := chunk_loop sentences in
  if current_word_count >=? 75 then chunks ++ [join " " current_chunk] else chunks.

Fixpoint recursive_summarize {C : Capabilities} (fuel : nat) (text : string) (threshold : Z)
    : Gen (option string) :=
  match fuel with
  | O => ret None
  | S fuel' =>
      if len (split text) <=? threshold then ret (Some text)
      else
        let sentences := split_into_sentences text in
        match sentences with
        | [] => ret (Some text)
        | _ :: _ =>
            let chunks := chunk_sentences sentences in
            summaries <- for_each model_summarize_default chunks ;;
            let combined_summary := join " " summaries in
            let summary_sentences := split_into_sentences combined_summary in
            if len summary_sentences =? 1 then ret (Some combined_summary)
            else if len (split combined_summary) >? threshold then
              recursive_summarize fuel' combined_summary threshold
            else ret (Some combined_summary)
        end
  end.

Definition default_recursive_threshold : Z := 50.
Definition default_iterative_threshold : Z := 75.

Definition iterative_summarization {C : Capabilities} (fuel : nat) (text : string)
    (threshold : Z) : Gen (option string) :=
  recursive_summarize fuel text threshold.

End Summarizer.

(** ** [deployment/summarizer_showcase.py] *)
Module Showcase.

(** [**gen_kwargs] is spliced between the length arguments and
    [early_stopping]; the engine itself passes none. *)
Definition model_summarize {C : Capabilities} (text : string) (max_length min_length : Z)
    (gen_kwargs : Kwargs) : Gen string :=
  invoke_model ("summarize: " +:+ text)
    ([ ("max_length", PyInt max_length); ("min_length", PyInt min_length) ]
     ++ gen_kwargs ++ [ ("early_stopping", PyBool true) ]).

Definition split_into_sentences {C : Capabilities} (text : string) : list string :=
  sent_tokenize text.

Definition default_max_words : Z := 300.
Definition default_min_words : Z := 50.

Definition chunk_step (max_words min_words : Z) (st : ChunkState) (sent : string)
    : ChunkState :=
  let '(chunks, current, count) := st in
  let words := len (split sent) in
  if count + words <=? max_words then
    (chunks, current ++ [sent], count + words)
  else
    (if count >=? min_words then chunks ++ [join " " current] else chunks,
     [sent], words).

Definition chunk_loop (sentences : list string) (max_words min_words : Z) : ChunkState :=
  fold_left (chunk_step max_words min_words) sentences ([], [], 0).

Definition chunk_sentences (sentences : list string) (max_words min_words : Z)
    : list string :=
  let '(chunks, current, count) := chunk_loop sentences max_words min_words in
  if count >=? min_words then chunks ++ [join " " current] else chunks.

Fixpoint recursive_summarize {C : Capabilities} (fuel : nat) (text : string)
    (max_length min_length threshold : Z) : Gen (option string) :=
  match fuel with
  | O => ret None
  | S fuel' =>
      if len (split text) <=? threshold then ret (Some text)
      else
        let sentences := split_into_sentences text in
        let chunks := chunk_sentences sentences default_max_words default_min_words in
        summaries <- for_each (fun chunk => model_summarize chunk max_length min_length [])
                              chunks ;;
        let combined := join " " summaries in
        if (len (sent_tokenize combined) =? 1) || (len (split combined) <=? threshold)
        then ret (Some combined)
        else recursive_summarize fuel' combined max_length min_length threshold
  end.

Definition default_max_length : Z := 150.
Definition default_min_length : Z := 30.

Definition iterative_summarization {C : Capabilities} (fuel : nat) (text : string)
    (max_length min_length : Z) : Gen (option string) :=
  recursive_summarize fuel text max_length min_length min_length.

End Showcase.

(** ** Specification-level companions of the code *)

(** The chunking loop with the chunks kept as groups of sentences instead of
    joined strings; [chunk_sentences_groups] below relates it to the code. *)
Definition GroupState : Type := list (list string) * list string * Z.

Definition group_step (max_words min_words : Z) (st : GroupState) (sent : string)
    : GroupState :=
  let '(groups, current, count) := st in
  let words := len (split sent) in
  if count + words <=? max_words then
    (groups, current ++ [sent], count + words)
  else
    (if count >=? min_words then groups ++ [current] else groups, [sent], words).

Definition group_loop (sentences : list string) (max_words min_words : Z) : GroupState :=
  fold_left (group_step max_words min_words) sentences ([], [], 0).

Definition chunk_groups (sentences : list string) (max_words min_words : Z)
    : list (list string) :=
  let '(groups, current, count) := group_loop sentences max_words min_words in
  if count >=? min_words then groups ++ [current] else groups.

(** The code's loop is the group loop with every emitted group joined. *)
Definition joined (st : GroupState) : ChunkState :=
  let '(groups, current, count) := st in (map (join " ") groups, current, count).

(** A group respects the size bound when it is within [max_words] or is one
    sentence that is itself longer. *)
Definition within_bound (max_words : Z) (g : list string) : Prop :=
  total_words g <= max_words \/ exists s, g = [s] /\ max_words < word_count s.

(** The keyword arguments [recursive_summarize] of summarizer.py ends up
    passing to [model.generate]. *)
Definition summarizer_default_kwargs : Kwargs :=
  [ ("max_length", PyInt 200);
    ("min_length", PyInt 30);
    ("num_beams", PyInt 4);
    ("temperature", PyFloat 0.3%float);
    ("top_k", PyInt 50);
    ("top_p", PyFloat 0.95%float);
    ("do_sample", PyBool true);
    ("early_stopping", PyBool true) ].

(** The trace entries of one level: chunk [i] prompted, summary [i] decoded. *)
Definition level_calls (prefix : string) (kw : Kwargs) (chunks summaries : list string)
    : list GenerateCall :=
  zip_with (fun chunk out => mkCall (prefix +:+ chunk) kw out) chunks summaries.

(** One full reduction pass of summarizer.py (split, chunk, summarize,
    combine): lines 119-127 of [recursive_summarize], without the stopping
    tests around them. *)
Definition reduction_pass {C : Capabilities} (text : string) : Gen string :=
  let sentences := Summarizer.split_into_sentences text in
  let chunks := Summarizer.chunk_sentences sentences in
  summaries <- for_each Summarizer.model_summarize_default chunks ;;
  ret (join " " summaries).

(** The same pass in summarizer_showcase.py (lines 52-58). *)
Definition showcase_pass {C : Capabilities} (text : string) (max_length min_length : Z)
    : Gen string :=
  let sentences := Showcase.split_into_sentences text in
  let chunks :=
    Showcase.chunk_sentences sentences Showcase.default_max_words Showcase.default_min_words in
  summaries <- for_each (fun chunk => Showcase.model_summarize chunk max_length min_length [])
                        chunks ;;
  ret (join " " summaries).

(** [needle in haystack] for Python strings. *)
Fixpoint starts_with (needle haystack : string) : bool :=
  match needle, haystack with
  | EmptyString, _ => true
  | String a n', String b h' => Ascii.eqb a b && starts_with n' h'
  | String _ _, EmptyString => false
  end.

Fixpoint contains (needle haystack : string) : bool :=
  starts_with needle haystack
  || match haystack with
     | EmptyString => false
     | String _ h' => contains needle h'
     end.

(** ** Test doubles *)

(** A stand-in for the sentence splitter: a sentence ends at [.], [!] or [?]
    followed by white space; text without a word yields no sentence. *)
Definition is_stop (c : ascii) : bool :=
  Ascii.eqb c "." || Ascii.eqb c "!" || Ascii.eqb c "?".

Definition flush_sentence (cur : string) : list string :=
  if word_count cur =? 0 then [] else [cur].

Fixpoint mock_sentences (after_stop : bool) (cur : string) (s : string) : list string :=
  match s with
  | EmptyString => flush_sentence cur
  | String c s' =>
      if after_stop && isspace c then flush_sentence cur ++ mock_sentences false EmptyString s'
      else mock_sentences (is_stop c) (cur +:+ String c EmptyString) s'
  end.

Definition mock_sent_tokenize (text : string) : list string :=
  mock_sentences false EmptyString text.

(** A model that answers every prompt with the same text and counts its
    calls. *)
Definition fixed_reply (reply : string) : Capabilities :=
  {| ModelState := nat;
     sent_tokenize := mock_sent_tokenize;
     generate := fun n _ _ => (reply, S n) |}.

(** A model that answers with the first word of the chunk (the third token
    of the prompt of summarizer.py) followed by a full stop. *)
Definition first_word_reply : Capabilities :=
  {| ModelState := nat;
     sent_tokenize := mock_sent_tokenize;
     generate := fun n prompt _ =>
       (match split prompt with
        | _ :: _ :: w :: _ => w +:+ "."
        | _ => EmptyString
        end, S n) |}.

(** Their worlds before any call. *)
Definition fixed_start (reply : string) : @World (fixed_reply reply) :=
  @mkWorld (fixed_reply reply) O [].

Definition first_word_start : @World first_word_reply :=
  @mkWorld first_word_reply O [].

(** [n] copies of the word [w], joined by single spaces. *)
Definition words_of (w : string) (n : nat) : string := join " " (replicate n w).

(** Twelve sentences of 100 words each, and an answer of 40 words in one
    sentence. *)
Definition twelve_sentences : string :=
  join " " (replicate 12 (words_of "a" 99 +:+ " end.")).

Definition forty_word_reply : string := words_of "w" 39 +:+ " end.".

(** The keyword arguments the showcase passes to [model.generate] when the
    engine calls [model_summarize] (no [gen_kwargs]). *)
Definition showcase_kwargs (max_length min_length : Z) : Kwargs :=
  [ ("max_length", PyInt max_length);
    ("min_length", PyInt min_length);
    ("early_stopping", PyBool true) ].

(** [g] is a run of consecutive elements of [l]. *)
Definition consecutive_in {A : Type} (g l : list A) : Prop :=
  exists before after, l = before ++ g ++ after.

(** ** More Python text primitives *)

(** [s.lstrip()], [s.rstrip()] and [s.strip()] with no argument. *)
Fixpoint lstrip (s : string) : string :=
  match s with
  | EmptyString => EmptyString
  | String c s' => if isspace c then lstrip s' else s
  end.

Fixpoint rstrip (s : string) : string :=
  match s with
  | EmptyString => EmptyString
  | String c s' =>
      match rstrip s' with
      | EmptyString => if isspace c then EmptyString else String c EmptyString
      | r => String c r
      end
  end.

Definition strip (s : string) : string := lstrip (rstrip s).

(** [re.sub(r'\s+', ' ', s)]: every maximal run of white space becomes one
    space.  [in_run] tells that the previous character was white space. *)
Fixpoint collapse_whitespace (in_run : bool) (s : string) : string :=
  match s with
  | EmptyString => EmptyString
  | String c s' =>
      if isspace c then
        if in_run then collapse_whitespace true s'
        else String " " (collapse_whitespace true s')
      else String c (collapse_whitespace false s')
  end.

(** A text without a white-space character. *)
Fixpoint no_space (s : string) : bool :=
  match s with
  | EmptyString => true
  | String c s' => negb (isspace c) && no_space s'
  end.

(** ** [deployment/LLM_inteface.py] *)
Module Interface.

Definition clean_text (text : string) : string :=
  let cleaned := strip (collapse_whitespace false text) in
  cleaned.

End Interface.

(** ** Articles *)

(** [s.lower()] on code points below 256: A-Z and the capital letters of
    Latin-1 (all of 0xC0-0xDE but the multiplication sign) move up by 32. *)
Definition lower_char (c : ascii) : ascii :=
  let n := nat_of_ascii c in
  if ((65 <=? n)%nat && (n <=? 90)%nat)
     || ((192 <=? n)%nat && (n <=? 214)%nat)
     || ((216 <=? n)%nat && (n <=? 222)%nat)
  then ascii_of_nat (n + 32) else c.

Fixpoint lower (s : string) : string :=
  match s with
  | EmptyString => EmptyString
  | String c s' => String (lower_char c) (lower s')
  end.

(** The truth value of a string: [bool(s)]. *)
Definition truthy (s : string) : bool :=
  match s with
  | EmptyString => false
  | String _ _ => true
  end.

(** A value of an article dictionary: a string, or [None] (a JSON null, a
    missing Firestore field value).  Other value types are not modelled. *)
Inductive PyField : Type :=
  | FStr (s : string)
  | FNone.

(** An article is a [dict] with string keys; each list entry is a dictionary
    object of its own, as the fetchers build them. *)
Abbreviation Article := (gmap string PyField).

Inductive PyError : Type :=
  | KeyError (key : string)
  | AttributeError
  | TypeError.

(** How a call ends: with a value, with an exception of a field access, or
    not at all within the fuel given to the summarizer (in Python a
    recursion that does not stop ends in RecursionError). *)
Inductive Outcome (A : Type) : Type :=
  | Returned (a : A)
  | Raised (e : PyError)
  | OutOfFuel.

Arguments Returned {A} a.
Arguments Raised {A} e.
Arguments OutOfFuel {A}.

(** [article.get(key, "")]. *)
Definition get_or_empty (article : Article) (key : string) : PyField :=
  match article !! key with
  | Some v => v
  | None => FStr EmptyString
  end.

(** The string under [key], the empty string when the key is absent or the
    value is [None]: used to state properties, not by the code. *)
Definition field_text (article : Article) (key : string) : string :=
  match article !! key with
  | Some (FStr s) => s
  | _ => EmptyString
  end.

(** ** [deployment/main_pipeline.py] *)

(** [clean_junk_text] and [is_strictly_english] (at its default threshold)
    are functions of main_pipeline.py built on regular expressions and
    [nltk.word_tokenize]; [predict] is [NewsCategorizer.predict].  The code
    below is modelled over any such functions. *)
Class Stages : Type := {
  clean_junk_text : string -> string;
  is_strictly_english : string -> bool;
  predict : string -> string
}.

(** The two sets that [main] shares between the days of a run. *)
Record Seen : Type := mkSeen {
  seen_titles : gset string;
  seen_texts : gset string
}.

(** What one iteration of the loop of [process_articles] does with its
    article: [continue], or append the updated article. *)
Inductive Step : Type :=
  | Skip
  | Keep (article : Article).

Module Pipeline.

(** The body of [for article in articles].  The sets are updated in place,
    so they are returned with every outcome. *)
Definition process_article {C : Capabilities} {P : Stages} (fuel : nat)
    (article : Article) (seen : Seen) : Gen (Outcome Step * Seen) :=
  fun w =>
    match article !! "title" with
    | None => ((Raised (KeyError "title"), seen), w)
    | Some FNone => ((Raised AttributeError, seen), w)
    | Some (FStr raw_title) =>
        let title := strip raw_title in
        let title_lower := lower title in
        match article !! "text" with
        | None => ((Raised (KeyError "text"), seen), w)
        | Some FNone => ((Raised TypeError, seen), w)
        | Some (FStr raw_text) =>
            let cleaned_text := clean_junk_text raw_text in
            if negb (truthy cleaned_text) || negb (truthy (strip cleaned_text))
            then ((Returned Skip, seen), w)
            else
              let text_lower := lower cleaned_text in
              if bool_decide (title_lower ∈ seen_titles seen)
                 && bool_decide (text_lower ∈ seen_texts seen)
              then ((Returned Skip, seen), w)
              else
                let seen' := mkSeen ({[ title_lower ]} ∪ seen_titles seen)
                                    ({[ text_lower ]} ∪ seen_texts seen) in
                let article1 := <[ "text" := FStr cleaned_text ]> article in
                if negb (is_strictly_english cleaned_text)
                then ((Returned Skip, seen'), w)
                else
                  let '(result, w') :=
                    Summarizer.iterative_summarization fuel cleaned_text
                      Summarizer.default_iterative_threshold w in
                  match result with
                  | None => ((OutOfFuel, seen'), w')
                  | Some summary =>
                      if negb (truthy summary) || negb (truthy (strip summary))
                      then ((Returned Skip, seen'), w')
                      else
                        let article2 := <[ "summary" := FStr summary ]> article1 in
                        let combined_text := title +:+ " " +:+ summary in
                        let category := predict combined_text in
                        let article3 := <[ "category" := FStr category ]> article2 in
                        ((Returned (Keep article3), seen'), w')
                  end
        end
    end.

Fixpoint process_loop {C : Capabilities} {P : Stages} (fuel : nat)
    (articles processed_articles : list Article) (seen : Seen)
    : Gen (Outcome (list Article) * Seen) :=
  fun w =>
    match articles with
    | [] => ((Returned processed_articles, seen), w)
    | article :: rest =>
        let '((step, seen'), w') := process_article fuel article seen w in
        match step with
        | Returned Skip => process_loop fuel rest processed_articles seen' w'
        | Returned (Keep updated) =>
            process_loop fuel rest (processed_articles ++ [updated]) seen' w'
        | Raised e => ((Raised e, seen'), w')
        | OutOfFuel => ((OutOfFuel, seen'), w')
        end
    end.

Definition process_articles {C : Capabilities} {P : Stages} (fuel : nat)
    (articles : list Article) (seen : Seen) : Gen (Outcome (list Article) * Seen) :=
  process_loop fuel articles [] seen.

(** [not article.get(key, "").strip()]. *)
Definition blank_field (article : Article) (key : string) : Outcome bool :=
  match get_or_empty article key with
  | FStr s => Returned (negb (truthy (strip s)))
  | FNone => Raised AttributeError
  end.

(** The loop of [upload_to_firestore]: the documents set in the batch, in
    order.  [or] does not look at the summary when the text is blank. *)
Fixpoint fill_batch (news_list batch : list Article) : Outcome (list Article) :=
  match news_list with
  | [] => Returned batch
  | article :: rest =>
      match blank_field article "text" with
      | Raised e => Raised e
      | OutOfFuel => OutOfFuel
      | Returned true => fill_batch rest batch
      | Returned false =>
          match blank_field article "summary" with
          | Raised e => Raised e
          | OutOfFuel => OutOfFuel
          | Returned true => fill_batch rest batch
          | Returned false => fill_batch rest (batch ++ [article])
          end
      end
  end.

(** [None] when the function returns before it opens a batch; otherwise the
    documents of the batch it commits (under fresh document ids).  An
    exception leaves the batch uncommitted. *)
Definition upload_to_firestore (news_list : list Article) : Outcome (option (list Article)) :=
  match news_list with
  | [] => Returned None
  | _ :: _ =>
      match fill_batch news_list [] with
      | Returned batch => Returned (Some batch)
      | Raised e => Raised e
      | OutOfFuel => OutOfFuel
      end
  end.

End Pipeline.

(** ** [deployment/app.py] *)

(** What [fetch_news_firestore] consumes: [strptime] is
    [datetime.strptime(s, '%Y-%m-%d')], [None] standing for its ValueError;
    [strftime] formats with the same pattern; [stream] runs the query on the
    collection "ProcessedNews" (date between the two strings, limit 100, the
    category among the given ones when there are any) and returns the
    documents as dictionaries. *)
Class Firestore : Type := {
  DateTime : Type;
  strptime : string -> option DateTime;
  strftime : DateTime -> string;
  stream : string -> string -> option (list string) -> list Article
}.

Module App.

(** [kw in article.get(key, "").lower()]. *)
Definition keyword_in (kw : string) (article : Article) (key : string) : Outcome bool :=
  match get_or_empty article key with
  | FStr s => Returned (contains kw (lower s))
  | FNone => Raised AttributeError
  end.

(** The condition of the comprehension; [or] looks at the summary only when
    the title does not match. *)
Definition matches_keyword (kw : string) (article : Article) : Outcome bool :=
  match keyword_in kw article "title" with
  | Returned true => Returned true
  | Returned false => keyword_in kw article "summary"
  | Raised e => Raised e
  | OutOfFuel => OutOfFuel
  end.

(** [[article for article in results if ...]]. *)
Fixpoint filter_keyword (kw : string) (results : list Article) : Outcome (list Article) :=
  match results with
  | [] => Returned []
  | article :: rest =>
      match matches_keyword kw article with
      | Returned keep =>
          match filter_keyword kw rest with
          | Returned filtered => Returned (if keep then article :: filtered else filtered)
          | Raised e => Raised e
          | OutOfFuel => OutOfFuel
          end
      | Raised e => Raised e
      | OutOfFuel => OutOfFuel
      end
  end.

(** The duplicate-removal loop. *)
Fixpoint unique_loop (results unique_results : list Article) (seen_titles : gset string)
    : Outcome (list Article) :=
  match results with
  | [] => Returned unique_results
  | article :: rest =>
      match get_or_empty article "title" with
      | FNone => Raised AttributeError
      | FStr raw_title =>
          let title := strip raw_title in
          if truthy title && negb (bool_decide (title ∈ seen_titles))
          then unique_loop rest (unique_results ++ [article]) ({[ title ]} ∪ seen_titles)
          else unique_loop rest unique_results seen_titles
      end
  end.

Definition fetch_news_firestore {F : Firestore} (start_date end_date : string)
    (categories : list string) (keyword : string) : Outcome (list Article) :=
  match strptime start_date with
  | None => Returned []
  | Some start_date_dt =>
      match strptime end_date with
      | None => Returned []
      | Some end_date_dt =>
          let start_date_str := strftime start_date_dt in
          let end_date_str := strftime end_date_dt in
          let results :=
            stream start_date_str end_date_str
              (match categories with [] => None | _ :: _ => Some categories end) in
          let filtered :=
            if truthy keyword then filter_keyword (lower keyword) results
            else Returned results in
          match filtered with
          | Returned results' => unique_loop results' [] ∅
          | Raised e => Raised e
          | OutOfFuel => OutOfFuel
          end
      end
  end.

End App.

(** The title under which the feed tells articles apart. *)
Definition feed_title (article : Article) : string := strip (field_text article "title").

(** [article] mentions [kw] in its lower-cased title or summary. *)
Definition mentions (kw : string) (article : Article) : Prop :=
  contains kw (lower (field_text article "title")) = true
  \/ contains kw (lower (field_text article "summary")) = true.

(** A store that holds four documents, two of them under the same title,
    and accepts dates of ten characters. *)
Definition stored_documents : list Article :=
  [ {[ "title" := FStr "Markets fall"; "summary" := FStr "Stocks fell." ]};
    {[ "title" := FStr " Markets fall "; "summary" := FStr "Stocks fell again." ]};
    {[ "title" := FStr "Rain"; "summary" := FStr "It rained on the markets." ]};
    {[ "title" := FStr "Football"; "summary" := FStr "A draw." ]} ].

Definition mock_store : Firestore :=
  {| DateTime := string;
     strptime := fun s => if (String.length s =? 10)%nat then Some s else None;
     strftime := fun d => d;
     stream := fun _ _ _ => stored_documents |}.

(** The key under which [process_articles] remembers an article. *)
Definition article_key (article : Article) : string * string :=
  (lower (strip (field_text article "title")), lower (field_text article "text")).

(** What [process_articles] turns a kept [article] into: the text cleaned,
    a summary, and the category predicted from the stripped title and the
    summary; every other key as it was. *)
Definition updated_from {P : Stages} (article updated : Article) : Prop :=
  exists summary,
    updated
    = <[ "category" := FStr (predict (strip (field_text article "title") +:+ " " +:+ summary)) ]>
        (<[ "summary" := FStr summary ]>
           (<[ "text" := FStr (clean_junk_text (field_text article "text")) ]> article)).

(** An article that is ready for upload and display. *)
Definition ready {P : Stages} (article : Article) : Prop :=
  exists title text summary,
    article !! "title" = Some (FStr title)
    /\ article !! "text" = Some (FStr text)
    /\ truthy (strip text) = true
    /\ is_strictly_english text = true
    /\ article !! "summary" = Some (FStr summary)
    /\ truthy (strip summary) = true
    /\ article !! "category" = Some (FStr (predict (strip title +:+ " " +:+ summary))).

(** Both fields that [process_articles] reads hold strings. *)
Definition well_formed (article : Article) : Prop :=
  exists title text, article !! "title" = Some (FStr title) /\ article !! "text" = Some (FStr text).

(** An article that [process_articles] skips without further work, given
    the sets: its cleaned text is blank, or its key is in the sets. *)
Definition settled {P : Stages} (seen : Seen) (article : Article) : Prop :=
  exists raw_title raw_text,
    article !! "title" = Some (FStr raw_title)
    /\ article !! "text" = Some (FStr raw_text)
    /\ (negb (truthy (clean_junk_text raw_text))
         || negb (truthy (strip (clean_junk_text raw_text))) = true
        \/ (lower (strip raw_title) ∈ seen_titles seen
            /\ lower (clean_junk_text raw_text) ∈ seen_texts seen)).

(** The summarization of the cleaned text of [article] returns within the
    fuel, whatever the model has been asked before. *)
Definition summary_returns {C : Capabilities} {P : Stages} (fuel : nat)
    (article : Article) : Prop :=
  forall w0, exists summary w1,
    Summarizer.iterative_summarization fuel (clean_junk_text (field_text article "text"))
      Summarizer.default_iterative_threshold w0 = (Some summary, w1).

(** Stand-ins for the stages: basic cleaning, every text English, one
    category. *)
Definition mock_stages : Stages :=
  {| clean_junk_text := Interface.clean_text;
     is_strictly_english := fun _ => true;
     predict := fun _ => "World" |}.

Definition no_seen : Seen := mkSeen ∅ ∅.

Definition sample_article (title text : string) : Article :=
  {[ "Date" := FStr "2025-02-27"; "title" := FStr title; "text" := FStr text;
     "url" := FStr "https://example.org/a" ]}.

(** Three fetched articles; the second repeats the first up to case and
    spacing. *)
Definition three_articles : list Article :=
  [ sample_article " Markets fall " "Stocks   fell today.";
    sample_article "markets FALL" "Stocks fell   today.";
    sample_article "Rain" "It rained." ].

(** What [process_articles] makes of the first and the third. *)
Definition two_processed : list Article :=
  [ <[ "category" := FStr "World" ]>
      (<[ "summary" := FStr "Stocks fell today." ]>
         (<[ "text" := FStr "Stocks fell today." ]>
            (sample_article " Markets fall " "Stocks   fell today.")));
    <[ "category" := FStr "World" ]>
      (<[ "summary" := FStr "It rained." ]>
         (<[ "text" := FStr "It rained." ]> (sample_article "Rain" "It rained."))) ].

(** The run of [process_articles] on them, from empty sets. *)
Definition sample_run
    : Outcome (list Article) * Seen * @World (fixed_reply "unused") :=
  @Pipeline.process_articles (fixed_reply "unused") mock_stages 1 three_articles no_seen
    (fixed_start "unused").

(** ** Companions for the termination argument *)

(** The splitter adds no word to [t]: the sentences it returns for [t] have
    together at most as many words as [t]. *)
Definition adds_no_word {C : Capabilities} (t : string) : Prop :=
  total_words (sent_tokenize t) <= word_count t.

(** The combined summary of [n] chunks under a model that always answers
    [reply]. *)
Definition copies (reply : string) (n : nat) : string := join " " (replicate n reply).

(** A second stand-in for the sentence splitter.  Besides the cut at a stop
    followed by white space, it cuts after a full stop that is directly
    followed by a bracket, brace or parenthesis (opening or closing), a
    quotation mark (single or double), a semicolon, a colon, an asterisk or
    an at sign, inside a white-space token; the next sentence starts at
    that mark.  This is the behaviour of the Punkt tokenizer behind
    [nltk.sent_tokenize] on such tokens when the mark is itself followed by
    a letter. *)
Definition is_mark (c : ascii) : bool :=
  existsb (Ascii.eqb c)
    [")"; "034"; ";"; "}"; "]"; "*"; ":"; "@"; "'"; "("; "{"; "["]%char.

Fixpoint mark_sentences (after_stop after_period : bool) (cur : string) (s : string)
    : list string :=
  match s with
  | EmptyString => flush_sentence cur
  | String c s' =>
      if after_stop && isspace c then
        flush_sentence cur ++ mark_sentences false false EmptyString s'
      else if after_period && is_mark c then
        flush_sentence cur ++ mark_sentences false false (String c EmptyString) s'
      else
        mark_sentences (is_stop c) (Ascii.eqb c ".") (cur +:+ String c EmptyString) s'
  end.

Definition mark_sent_tokenize (text : string) : list string :=
  mark_sentences false false EmptyString text.

(** A model with a fixed answer behind that splitter, and its world before
    any call. *)
Definition marked_reply (reply : string) : Capabilities :=
  {| ModelState := nat;
     sent_tokenize := mark_sent_tokenize;
     generate := fun n _ _ => (reply, S n) |}.

Definition marked_start (reply : string) : @World (marked_reply reply) :=
  @mkWorld (marked_reply reply) O [].

(** Sixty words in twenty groups of three; the third word of each group
    holds a full stop followed by a bracket. *)
Definition looping_reply : string :=
  join " " (replicate 20 "one two three.)four").

(** Three tagged sentences of 100, 250 and 100 words. *)
Definition tagged_text : string :=
  "SENT1 " +:+ words_of "a" 98 +:+ " end. SENT2 " +:+ words_of "b" 248
  +:+ " end. SENT3 " +:+ words_of "c" 98 +:+ " end.".

(** A 39-word answer of the same kind, for the showcase. *)
Definition showcase_looping_reply : string :=
  join " " (replicate 13 "one two three.)four").

(** * Properties *)

(** ** The primitives on small inputs *)

Example split_demo :
  split "  the quick	brown fox " = ["the"; "quick"; "brown"; "fox"].
Proof. reflexivity. Qed.

Example join_demo : join " " ["a b"; "c"; "d"] = "a b c d".
Proof. reflexivity. Qed.

Example mock_sent_tokenize_demo :
  mock_sent_tokenize "One fine day. Was it?  Yes! " = ["One fine day."; "Was it?"; " Yes!"].
Proof. reflexivity. Qed.

Example mock_sent_tokenize_blank : mock_sent_tokenize "   " = [].
Proof. reflexivity. Qed.

(** ** Words, joins and counts *)

Lemma len_nonneg {A : Type} (l : list A) : 0 <= len l.
Proof. unfold len. lia. Qed.

Lemma word_count_nonneg (s : string) : 0 <= word_count s.
Proof. apply len_nonneg. Qed.

Lemma len_app {A : Type} (l k : list A) : len (l ++ k) = len l + len k.
Proof. unfold len. rewrite length_app. lia. Qed.

Lemma append_nil (b : string) : EmptyString +:+ b = b.
Proof. reflexivity. Qed.

Lemma append_cons (x : ascii) (a b : string) : String x a +:+ b = String x (a +:+ b).
Proof. reflexivity. Qed.

Lemma append_nil_r (a : string) : a +:+ EmptyString = a.
Proof.
  induction a as [|x a IH]; [reflexivity|].
  now rewrite append_cons, IH.
Qed.

Lemma append_assoc (a b c : string) : (a +:+ b) +:+ c = a +:+ (b +:+ c).
Proof.
  induction a as [|x a IH]; [reflexivity|].
  now rewrite !append_cons, IH.
Qed.

(** Cutting a text at a white-space character cuts its word list. *)
Lemma split_from_sep (a b cur : string) (c : ascii) :
  isspace c = true ->
  split_from cur (a +:+ String c b) = split_from cur a ++ split_from EmptyString b.
Proof.
  intros Hc. revert cur.
  induction a as [|x a IH]; intros cur.
  - rewrite append_nil. simpl. now rewrite Hc.
  - rewrite append_cons. simpl. destruct (isspace x).
    + now rewrite IH, app_assoc.
    + apply IH.
Qed.

Lemma word_count_sep (a b : string) (c : ascii) :
  isspace c = true ->
  word_count (a +:+ String c b) = word_count a + word_count b.
Proof.
  intros Hc. unfold word_count, split.
  now rewrite (split_from_sep _ _ _ _ Hc), len_app.
Qed.

Lemma total_words_nonneg (l : list string) : 0 <= total_words l.
Proof.
  induction l as [|x l IH]; simpl; [lia|].
  pose proof (word_count_nonneg x). lia.
Qed.

Lemma total_words_app (l k : list string) :
  total_words (l ++ k) = total_words l + total_words k.
Proof. induction l as [|x l IH]; simpl; lia. Qed.

(** Joining with single spaces neither merges nor creates words. *)
Lemma word_count_join (l : list string) :
  word_count (join " " l) = total_words l.
Proof.
  induction l as [|x l IH]; [reflexivity|].
  destruct l as [|y l].
  - simpl. lia.
  - change (join " " (x :: y :: l)) with (x +:+ String " " (join " " (y :: l))).
    rewrite word_count_sep by reflexivity.
    rewrite IH. reflexivity.
Qed.

Lemma total_words_replicate (n : nat) (s : string) :
  total_words (replicate n s) = Z.of_nat n * word_count s.
Proof. induction n as [|n IH]; simpl total_words; [lia | rewrite IH; lia]. Qed.

(** ** The chunking loop *)

(** Python's loop seen from its last iteration. *)
Lemma fold_left_snoc {A B : Type} (f : A -> B -> A) (l : list B) (x : B) (a : A) :
  fold_left f (l ++ [x]) a = f (fold_left f l a) x.
Proof. now rewrite fold_left_app. Qed.

Lemma chunk_step_joined (max_words min_words : Z) (st : GroupState) (sent : string) :
  Showcase.chunk_step max_words min_words (joined st) sent
  = joined (group_step max_words min_words st sent).
Proof.
  destruct st as [[groups current] count]. simpl.
  destruct (count + len (split sent) <=? max_words); [reflexivity|].
  destruct (count >=? min_words); simpl; [|reflexivity].
  now rewrite map_app.
Qed.

Lemma chunk_loop_joined (sentences : list string) (max_words min_words : Z) :
  Showcase.chunk_loop sentences max_words min_words
  = joined (group_loop sentences max_words min_words).
Proof.
  unfold Showcase.chunk_loop, group_loop.
  induction sentences as [|s ss IH] using rev_ind; [reflexivity|].
  now rewrite !fold_left_snoc, IH, chunk_step_joined.
Qed.

Lemma chunk_sentences_groups (sentences : list string) (max_words min_words : Z) :
  Showcase.chunk_sentences sentences max_words min_words
  = map (join " ") (chunk_groups sentences max_words min_words).
Proof.
  unfold Showcase.chunk_sentences, chunk_groups.
  rewrite chunk_loop_joined.
  destruct (group_loop sentences max_words min_words) as [[groups current] count]. simpl.
  destruct (count >=? min_words); [|reflexivity].
  now rewrite map_app.
Qed.

(** summarizer.py hard-codes the bounds the showcase takes as arguments. *)
Lemma summarizer_chunk_sentences (sentences : list string) :
  Summarizer.chunk_sentences sentences = Showcase.chunk_sentences sentences 300 75.
Proof. reflexivity. Qed.

(** After any number of iterations the running count is the word count of
    the running chunk, and every group emitted so far met the floor. *)
Lemma group_loop_count (sentences : list string) (max_words min_words : Z) :
  let '(groups, current, count) := group_loop sentences max_words min_words in
  count = total_words current /\ Forall (fun g => min_words <= total_words g) groups.
Proof.
  unfold group_loop.
  induction sentences as [|s ss IH] using rev_ind; [now split|].
  rewrite fold_left_snoc.
  destruct (fold_left _ ss _) as [[groups current] count].
  destruct IH as [Hcount Hfloor]. unfold group_step.
  destruct (count + len (split s) <=? max_words).
  - split; [|exact Hfloor].
    rewrite total_words_app. simpl. fold (word_count s). lia.
  - split; [simpl; fold (word_count s); lia|].
    destruct (count >=? min_words) eqn:Hge; [|exact Hfloor].
    apply Forall_app. split; [exact Hfloor|].
    apply Forall_singleton. apply Z.geb_le in Hge. lia.
Qed.

(** With a non-negative bound, the running chunk and every emitted group
    stay within it, a lone oversized sentence apart. *)
Lemma group_loop_bound (sentences : list string) (max_words min_words : Z) :
  0 <= max_words ->
  let '(groups, current, count) := group_loop sentences max_words min_words in
  within_bound max_words current /\ Forall (within_bound max_words) groups.
Proof.
  intros Hmax. pose proof (group_loop_count sentences max_words min_words) as Hc.
  revert Hc. unfold group_loop.
  induction sentences as [|s ss IH] using rev_ind.
  - intros _. split; [left; simpl; lia | constructor].
  - pose proof (group_loop_count ss max_words min_words) as Hc'. unfold group_loop in Hc'.
    rewrite fold_left_snoc.
    destruct (fold_left _ ss _) as [[groups current] count].
    destruct (IH Hc') as [Hcur Hgroups]. destruct Hc' as [Hcount _].
    unfold group_step.
    destruct (count + len (split s) <=? max_words) eqn:Hfit; intros [Hcount' _].
    + split; [|exact Hgroups]. left. apply Z.leb_le in Hfit. lia.
    + apply Z.leb_gt in Hfit. split.
      * destruct (Z_le_gt_dec (word_count s) max_words) as [Hle|Hgt].
        -- left. simpl. lia.
        -- right. exists s. split; [reflexivity | lia].
      * destruct (count >=? min_words); [|exact Hgroups].
        apply Forall_app. split; [exact Hgroups|].
        now apply Forall_singleton.
Qed.

(** The sentences kept so far, read group by group and then through the
    running chunk, are a subsequence of the sentences consumed. *)
Lemma group_loop_sublist (sentences : list string) (max_words min_words : Z) :
  let '(groups, current, _) := group_loop sentences max_words min_words in
  concat groups ++ current `sublist_of` sentences.
Proof.
  unfold group_loop.
  induction sentences as [|s ss IH] using rev_ind; [constructor|].
  rewrite fold_left_snoc.
  destruct (fold_left _ ss _) as [[groups current] count].
  unfold group_step.
  destruct (count + len (split s) <=? max_words).
  - rewrite app_assoc. now apply sublist_app.
  - apply sublist_app; [|reflexivity].
    destruct (count >=? min_words).
    + rewrite concat_app. simpl. now rewrite app_nil_r.
    + etransitivity; [|exact IH]. now apply sublist_inserts_r.
Qed.

Lemma chunk_groups_floor (sentences : list string) (max_words min_words : Z) :
  Forall (fun g => min_words <= total_words g) (chunk_groups sentences max_words min_words).
Proof.
  unfold chunk_groups.
  pose proof (group_loop_count sentences max_words min_words) as Hc.
  destruct (group_loop _ _ _) as [[groups current] count].
  destruct Hc as [Hcount Hfloor].
  destruct (count >=? min_words) eqn:Hge; [|exact Hfloor].
  apply Forall_app. split; [exact Hfloor|].
  apply Forall_singleton. apply Z.geb_le in Hge. lia.
Qed.

Lemma chunk_groups_bound (sentences : list string) (max_words min_words : Z) :
  0 <= max_words ->
  Forall (within_bound max_words) (chunk_groups sentences max_words min_words).
Proof.
  intros Hmax. unfold chunk_groups.
  pose proof (group_loop_bound sentences max_words min_words Hmax) as Hb.
  destruct (group_loop _ _ _) as [[groups current] count].
  destruct Hb as [Hcur Hgroups].
  destruct (count >=? min_words); [|exact Hgroups].
  apply Forall_app. split; [exact Hgroups|]. now apply Forall_singleton.
Qed.

Lemma chunk_groups_sublist (sentences : list string) (max_words min_words : Z) :
  concat (chunk_groups sentences max_words min_words) `sublist_of` sentences.
Proof.
  unfold chunk_groups.
  pose proof (group_loop_sublist sentences max_words min_words) as Hs.
  destruct (group_loop _ _ _) as [[groups current] count].
  destruct (count >=? min_words).
  - rewrite concat_app. simpl. now rewrite app_nil_r.
  - etransitivity; [|exact Hs]. now apply sublist_inserts_r.
Qed.

(** An oversized sentence is never merged and never dropped: once consumed
    it is the whole running chunk, and it is emitted when the next sentence
    arrives or the input ends (the floor lies below the bound). *)
Lemma group_loop_oversized (sentences : list string) (max_words min_words : Z) :
  min_words <= max_words + 1 ->
  let '(groups, current, _) := group_loop sentences max_words min_words in
  forall s, s ∈ sentences -> max_words < word_count s -> [s] ∈ groups \/ current = [s].
Proof.
  intros Hfloor. unfold group_loop.
  induction sentences as [|x ss IH] using rev_ind.
  - intros s Hs. inversion Hs.
  - pose proof (group_loop_count ss max_words min_words) as Hc. unfold group_loop in Hc.
    rewrite fold_left_snoc.
    destruct (fold_left _ ss _) as [[groups current] count].
    destruct Hc as [Hcount _]. pose proof (total_words_nonneg current) as Hpos.
    pose proof (word_count_nonneg x) as Hx.
    unfold group_step. fold (word_count x).
    destruct (count + word_count x <=? max_words) eqn:Hfit; intros s Hs Hbig;
      apply elem_of_app in Hs as [Hs | Hs].
    + apply Z.leb_le in Hfit. destruct (IH s Hs Hbig) as [Hin | ->]; [now left|].
      simpl in Hcount. lia.
    + apply list_elem_of_singleton in Hs as ->. apply Z.leb_le in Hfit. lia.
    + destruct (IH s Hs Hbig) as [Hin | ->].
      * left. destruct (count >=? min_words); [|exact Hin].
        apply elem_of_app. now left.
      * left. simpl in Hcount.
        assert (Hge : (count >=? min_words) = true) by (apply Z.geb_le; lia).
        rewrite Hge. apply elem_of_app. right. constructor.
    + apply list_elem_of_singleton in Hs as ->. now right.
Qed.

Lemma chunk_groups_oversized (sentences : list string) (max_words min_words : Z) (s : string) :
  min_words <= max_words + 1 ->
  s ∈ sentences -> max_words < word_count s ->
  [s] ∈ chunk_groups sentences max_words min_words.
Proof.
  intros Hfloor Hs Hbig. unfold chunk_groups.
  pose proof (group_loop_oversized sentences max_words min_words Hfloor) as Ho.
  pose proof (group_loop_count sentences max_words min_words) as Hc.
  destruct (group_loop _ _ _) as [[groups current] count].
  destruct Hc as [Hcount _].
  destruct (Ho s Hs Hbig) as [Hin | ->].
  - destruct (count >=? min_words); [|exact Hin]. apply elem_of_app. now left.
  - simpl in Hcount.
    assert (Hge : (count >=? min_words) = true) by (apply Z.geb_le; lia).
    rewrite Hge. apply elem_of_app. right. constructor.
Qed.

Lemma elem_of_concat_group {A : Type} (x : A) (g : list A) (groups : list (list A)) :
  x ∈ g -> g ∈ groups -> x ∈ concat groups.
Proof.
  intros Hx Hg. apply list_elem_of_In, in_concat.
  exists g. split; now apply list_elem_of_In.
Qed.

(** The size bound for any non-negative [max_words]. *)
Lemma showcase_chunk_bound (sentences : list string) (max_words min_words : Z) (c : string) :
  0 <= max_words ->
  c ∈ Showcase.chunk_sentences sentences max_words min_words ->
  word_count c <= max_words \/ (c ∈ sentences /\ max_words < word_count c).
Proof.
  intros Hmax Hc. rewrite chunk_sentences_groups in Hc.
  apply list_elem_of_fmap in Hc as (g & -> & Hg).
  pose proof (chunk_groups_bound sentences max_words min_words Hmax) as Hb.
  rewrite Forall_forall in Hb. destruct (Hb g Hg) as [Hle | (s & -> & Hbig)].
  - left. now rewrite word_count_join.
  - right. simpl. split; [|exact Hbig].
    apply elem_of_sublist with (l1 := concat (chunk_groups sentences max_words min_words));
      [|apply chunk_groups_sublist].
    apply elem_of_concat_group with (g := [s]); [constructor | exact Hg].
Qed.

(** The floor for any [min_words]. *)
Lemma showcase_chunk_floor (sentences : list string) (max_words min_words : Z) (c : string) :
  c ∈ Showcase.chunk_sentences sentences max_words min_words ->
  min_words <= word_count c.
Proof.
  intros Hc. rewrite chunk_sentences_groups in Hc.
  apply list_elem_of_fmap in Hc as (g & -> & Hg).
  pose proof (chunk_groups_floor sentences max_words min_words) as Hf.
  rewrite Forall_forall in Hf. rewrite word_count_join. now apply Hf.
Qed.

Lemma showcase_oversized_emitted (sentences : list string) (max_words min_words : Z)
    (s : string) :
  min_words <= max_words + 1 ->
  s ∈ sentences -> max_words < word_count s ->
  s ∈ Showcase.chunk_sentences sentences max_words min_words.
Proof.
  intros Hfloor Hs Hbig. rewrite chunk_sentences_groups.
  apply list_elem_of_fmap. exists [s]. split; [reflexivity|].
  now apply chunk_groups_oversized.
Qed.

(** C3. (a) Every chunk that [chunk_sentences] emits, in summarizer.py and
    in the showcase at its default bounds, has at most 300 words, unless it
    is a single input sentence that is itself longer than 300 words.
    (b) Such a sentence is always emitted, alone and unsplit: it is itself
    one of the chunks. *)
Theorem chunk_size_bound (sentences : list string) :
  (forall c,
     c ∈ Summarizer.chunk_sentences sentences
     \/ c ∈ Showcase.chunk_sentences sentences Showcase.default_max_words
            Showcase.default_min_words ->
     word_count c <= 300 \/ (c ∈ sentences /\ 300 < word_count c))
  /\ (forall s,
        s ∈ sentences -> 300 < word_count s ->
        s ∈ Summarizer.chunk_sentences sentences
        /\ s ∈ Showcase.chunk_sentences sentences Showcase.default_max_words
               Showcase.default_min_words).
Proof.
  split.
  - intros c [Hc | Hc].
    + rewrite summarizer_chunk_sentences in Hc.
      now apply showcase_chunk_bound in Hc.
    + now apply showcase_chunk_bound in Hc.
  - intros s Hs Hbig. split.
    + rewrite summarizer_chunk_sentences.
      now apply showcase_oversized_emitted.
    + now apply showcase_oversized_emitted.
Qed.

(** Three sentences of 200, 150 and 301 words: three chunks, the last one
    the oversized sentence on its own. *)
Lemma chunk_size_bound_witness :
  Summarizer.chunk_sentences [words_of "a" 200; words_of "b" 150; words_of "c" 301]
  = [words_of "a" 200; words_of "b" 150; words_of "c" 301]
  /\ (word_count (words_of "c" 301) <= 300
      \/ (words_of "c" 301 ∈ [words_of "a" 200; words_of "b" 150; words_of "c" 301]
          /\ 300 < word_count (words_of "c" 301)))
  /\ words_of "c" 301
     ∈ Summarizer.chunk_sentences [words_of "a" 200; words_of "b" 150; words_of "c" 301].
Proof.
  pose proof (chunk_size_bound [words_of "a" 200; words_of "b" 150; words_of "c" 301])
    as [Hbound Hbig].
  split; [vm_compute; reflexivity|]. split.
  - apply Hbound. left.
    replace (Summarizer.chunk_sentences _)
      with [words_of "a" 200; words_of "b" 150; words_of "c" 301]
      by (vm_compute; reflexivity).
    do 2 apply list_elem_of_further. apply list_elem_of_here.
  - apply Hbig; [|vm_compute; reflexivity].
    do 2 apply list_elem_of_further. apply list_elem_of_here.
Defined.

(** C4. No chunk that [chunk_sentences] emits has fewer words than the floor
    (75 in summarizer.py, 50 in the showcase), and when the loop ends with a
    running chunk below the floor the result is exactly the chunks emitted
    inside the loop: the running chunk is dropped, not emitted and not
    padded. *)
Theorem chunk_floor (sentences : list string) :
  (forall c, c ∈ Summarizer.chunk_sentences sentences -> 75 <= word_count c)
  /\ (forall c, c ∈ Showcase.chunk_sentences sentences Showcase.default_max_words
                    Showcase.default_min_words -> 50 <= word_count c)
  /\ (forall chunks current count,
        Summarizer.chunk_loop sentences = (chunks, current, count) ->
        count < 75 -> Summarizer.chunk_sentences sentences = chunks)
  /\ (forall chunks current count,
        Showcase.chunk_loop sentences Showcase.default_max_words
          Showcase.default_min_words = (chunks, current, count) ->
        count < 50 ->
        Showcase.chunk_sentences sentences Showcase.default_max_words
          Showcase.default_min_words = chunks).
Proof.
  split; [|split; [|split]].
  - intros c Hc. rewrite summarizer_chunk_sentences in Hc.
    now apply showcase_chunk_floor in Hc.
  - intros c Hc. now apply showcase_chunk_floor in Hc.
  - intros chunks current count Hloop Hlow.
    unfold Summarizer.chunk_sentences. rewrite Hloop.
    destruct (count >=? 75) eqn:Hge; [|reflexivity].
    apply Z.geb_le in Hge. lia.
  - intros chunks current count Hloop Hlow.
    unfold Showcase.chunk_sentences. rewrite Hloop.
    destruct (count >=? Showcase.default_min_words) eqn:Hge; [|reflexivity].
    apply Z.geb_le in Hge. unfold Showcase.default_min_words in Hge. lia.
Qed.

(** 100 words, then 190, then 40: the first two sentences fill one chunk of
    290 words, the 40-word tail does not fit and is dropped at the end. *)
Lemma chunk_floor_witness :
  75 <= word_count (words_of "a" 100 +:+ " " +:+ words_of "b" 190)
  /\ Summarizer.chunk_sentences [words_of "a" 100; words_of "b" 190; words_of "c" 40]
     = [words_of "a" 100 +:+ " " +:+ words_of "b" 190].
Proof.
  pose proof (chunk_floor [words_of "a" 100; words_of "b" 190; words_of "c" 40])
    as (Hfloor & _ & Hdrop & _).
  split.
  - apply Hfloor.
    replace (Summarizer.chunk_sentences _)
      with [words_of "a" 100 +:+ " " +:+ words_of "b" 190]
      by (vm_compute; reflexivity).
    apply list_elem_of_here.
  - apply (Hdrop _ [words_of "c" 40] 40); [vm_compute; reflexivity | lia].
Defined.

(** ** One level of the recursion *)

Lemma summarizer_default_call {C : Capabilities} (chunk : string) :
  Summarizer.model_summarize_default chunk
  = invoke_model ("summarize : " +:+ chunk) summarizer_default_kwargs.
Proof. reflexivity. Qed.

(** A comprehension over the chunks calls the model once per chunk, in chunk
    order, and returns the outputs in that order. *)
Lemma for_each_invoke {C : Capabilities} (prefix : string) (kw : Kwargs)
    (chunks : list string) (w : World) :
  let '(summaries, w') := for_each (fun chunk => invoke_model (prefix +:+ chunk) kw) chunks w in
  length summaries = length chunks
  /\ trace w' = trace w ++ level_calls prefix kw chunks summaries.
Proof.
  revert w. induction chunks as [|c chunks IH]; intros w; simpl.
  - split; [reflexivity | now rewrite app_nil_r].
  - unfold bind, invoke_model at 1.
    destruct (generate (model_state w) (prefix +:+ c) kw) as [out st'].
    specialize (IH (mkWorld _ st' (trace w ++ [mkCall (prefix +:+ c) kw out]))).
    destruct (for_each _ chunks _) as [summaries w'].
    destruct IH as [Hlen Htrace]. simpl. split; [now rewrite Hlen|].
    rewrite Htrace. simpl. now rewrite <- app_assoc.
Qed.

(** [recursive_summarize] of summarizer.py, one call unfolded, with the
    reduction pass named. *)
Lemma summarizer_unfold {C : Capabilities} (fuel : nat) (text : string) (threshold : Z)
    (w : World) :
  Summarizer.recursive_summarize (S fuel) text threshold w
  = if word_count text <=? threshold then (Some text, w)
    else match sent_tokenize text with
         | [] => (Some text, w)
         | _ :: _ =>
             let (combined, w') := reduction_pass text w in
             if len (sent_tokenize combined) =? 1 then (Some combined, w')
             else if word_count combined >? threshold then
               Summarizer.recursive_summarize fuel combined threshold w'
             else (Some combined, w')
         end.
Proof.
  simpl. unfold word_count, reduction_pass, Summarizer.split_into_sentences, bind, ret.
  destruct (len (split text) <=? threshold); [reflexivity|].
  destruct (sent_tokenize text) as [|s ss]; [reflexivity|].
  destruct (for_each _ _ w) as [summaries w'].
  destruct (len (sent_tokenize (join " " summaries)) =? 1); [reflexivity|].
  destruct (len (split (join " " summaries)) >? threshold); reflexivity.
Qed.

Lemma showcase_unfold {C : Capabilities} (fuel : nat) (text : string)
    (max_length min_length threshold : Z) (w : World) :
  Showcase.recursive_summarize (S fuel) text max_length min_length threshold w
  = if word_count text <=? threshold then (Some text, w)
    else let (combined, w') := showcase_pass text max_length min_length w in
         if (len (sent_tokenize combined) =? 1) || (word_count combined <=? threshold)
         then (Some combined, w')
         else Showcase.recursive_summarize fuel combined max_length min_length threshold w'.
Proof.
  simpl. unfold word_count, showcase_pass, Showcase.split_into_sentences, bind, ret.
  destruct (len (split text) <=? threshold); [reflexivity|].
  destruct (for_each _ _ w) as [summaries w'].
  destruct ((len (sent_tokenize (join " " summaries)) =? 1)
            || (len (split (join " " summaries)) <=? threshold)); reflexivity.
Qed.

(** With no chunk there is nothing to summarize: the pass yields the empty
    join and leaves the world alone. *)
Lemma reduction_pass_no_chunk {C : Capabilities} (text : string) (w : World) :
  Summarizer.chunk_sentences (sent_tokenize text) = [] ->
  reduction_pass text w = (EmptyString, w).
Proof.
  intros Hnone. unfold reduction_pass, Summarizer.split_into_sentences.
  now rewrite Hnone.
Qed.

Lemma showcase_pass_no_chunk {C : Capabilities} (text : string) (max_length min_length : Z)
    (w : World) :
  Showcase.chunk_sentences (sent_tokenize text) Showcase.default_max_words
    Showcase.default_min_words = [] ->
  showcase_pass text max_length min_length w = (EmptyString, w).
Proof.
  intros Hnone. unfold showcase_pass, Showcase.split_into_sentences.
  now rewrite Hnone.
Qed.

(** ** The base case *)

(** C1. A text whose word count is at most the threshold is returned as it
    is, and the world is untouched: the model state has not moved and the
    trace has no new call.  This holds for [recursive_summarize] and
    [iterative_summarization] of both files (in the showcase the threshold
    of [iterative_summarization] is its [min_length]) and covers the empty
    text at any threshold from 0 up. *)
Theorem base_case_returns_text (C : Capabilities) (fuel : nat) (text : string)
    (threshold : Z) (w : World) :
  word_count text <= threshold ->
  Summarizer.recursive_summarize (S fuel) text threshold w = (Some text, w)
  /\ Summarizer.iterative_summarization (S fuel) text threshold w = (Some text, w)
  /\ (forall max_length min_length,
        Showcase.recursive_summarize (S fuel) text max_length min_length threshold w
        = (Some text, w))
  /\ (forall max_length,
        Showcase.iterative_summarization (S fuel) text max_length threshold w
        = (Some text, w)).
Proof.
  intros Hshort. apply Z.leb_le in Hshort.
  assert (Hsum : Summarizer.recursive_summarize (S fuel) text threshold w = (Some text, w))
    by (rewrite summarizer_unfold; now rewrite Hshort).
  assert (Hshow : forall max_length min_length,
             Showcase.recursive_summarize (S fuel) text max_length min_length threshold w
             = (Some text, w))
    by (intros; rewrite showcase_unfold; now rewrite Hshort).
  repeat split; auto.
  intros max_length. apply Hshow.
Qed.

(** The empty text at threshold 0, and a three-word text at threshold 3. *)
Lemma base_case_returns_text_witness :
  Summarizer.recursive_summarize 1 "" 0 (fixed_start "unused")
  = (Some "", fixed_start "unused")
  /\ Summarizer.iterative_summarization 1 "one two three" 3 (fixed_start "unused")
     = (Some "one two three", fixed_start "unused").
Proof.
  split.
  - apply (base_case_returns_text (fixed_reply "unused") 0 "" 0 (fixed_start "unused")).
    vm_compute. discriminate.
  - apply (base_case_returns_text (fixed_reply "unused") 0 "one two three" 3
             (fixed_start "unused")).
    vm_compute. discriminate.
Defined.

(** ** When the splitter or the chunker yields nothing *)

(** summarizer.py guards the case of a splitter that returns no sentence:
    the text comes back, the model is not called, no further level is
    entered. *)
Lemma summarizer_no_sentence_guard (C : Capabilities) (fuel : nat) (text : string)
    (threshold : Z) (w : World) :
  threshold < word_count text ->
  sent_tokenize text = [] ->
  Summarizer.recursive_summarize (S fuel) text threshold w = (Some text, w).
Proof.
  intros Hlong Hnone. apply Z.leb_gt in Hlong.
  rewrite summarizer_unfold. now rewrite Hlong, Hnone.
Qed.

(** The showcase has no such guard.  On the empty text with a negative
    threshold every level recurses on the empty text again. *)
Lemma showcase_empty_text_loops (reply : string) (fuel : nat) (max_length : Z)
    (w : @World (fixed_reply reply)) :
  Showcase.recursive_summarize fuel "" max_length (-1) (-1) w = (None, w).
Proof.
  induction fuel as [|fuel IH]; [reflexivity|].
  rewrite showcase_unfold.
  rewrite showcase_pass_no_chunk by reflexivity.
  exact IH.
Qed.

(** C5, evaluated on a one-space text with threshold -1.  The text is not
    empty, its word count 0 is above the threshold, and the splitter returns
    no sentence.  summarizer.py returns the text unchanged and leaves the
    world alone; the showcase, called through [iterative_summarization],
    never returns, whatever the fuel. *)
Theorem showcase_lacks_no_sentence_guard (fuel : nat) :
  " " <> ""
  /\ -1 < word_count " "
  /\ @sent_tokenize (fixed_reply "unused") " " = []
  /\ Summarizer.recursive_summarize (S fuel) " " (-1) (fixed_start "unused")
     = (Some " ", fixed_start "unused")
  /\ Showcase.iterative_summarization fuel " " 150 (-1) (fixed_start "unused")
     = (None, fixed_start "unused").
Proof.
  split; [discriminate|]. split; [reflexivity|]. split; [reflexivity|]. split.
  - now apply summarizer_no_sentence_guard.
  - unfold Showcase.iterative_summarization.
    destruct fuel as [|fuel]; [reflexivity|].
    rewrite showcase_unfold.
    rewrite showcase_pass_no_chunk by reflexivity.
    apply showcase_empty_text_loops.
Qed.

(** C2, as the code has it.  With a threshold of at least 0 and a text
    above it, when chunk building yields no chunk the level produces the
    empty join: [recursive_summarize] returns the empty string, calls the
    model not at all and enters no further level.  In summarizer.py this
    is the case of a non-empty sentence sequence; the empty one is guarded
    and returns the text. *)
Theorem no_chunk_gives_empty_summary (C : Capabilities) (fuel : nat) (text : string)
    (threshold : Z) (w : World) :
  0 <= threshold ->
  threshold < word_count text ->
  (sent_tokenize text <> [] ->
   Summarizer.chunk_sentences (sent_tokenize text) = [] ->
   Summarizer.recursive_summarize (S fuel) text threshold w = (Some "", w))
  /\ (Showcase.chunk_sentences (sent_tokenize text) Showcase.default_max_words
        Showcase.default_min_words = [] ->
      forall max_length min_length,
        Showcase.recursive_summarize (S fuel) text max_length min_length threshold w
        = (Some "", w)).
Proof.
  intros Hthr Hlong. apply Z.leb_gt in Hlong.
  assert (Hzero : (word_count "" >? threshold) = false)
    by (change (word_count "") with 0; rewrite Z.gtb_ltb; apply Z.ltb_ge; exact Hthr).
  assert (Hzero' : (word_count "" <=? threshold) = true)
    by (change (word_count "") with 0; apply Z.leb_le; exact Hthr).
  split.
  - intros Hsome Hnone. rewrite summarizer_unfold, Hlong.
    destruct (sent_tokenize text) as [|s ss] eqn:Hsent; [congruence|].
    rewrite <- Hsent in Hnone. rewrite (reduction_pass_no_chunk _ _ Hnone).
    rewrite Hzero. now destruct (len (sent_tokenize "") =? 1).
  - intros Hnone max_length min_length. rewrite showcase_unfold, Hlong.
    rewrite (showcase_pass_no_chunk _ _ _ _ Hnone).
    rewrite Hzero'. now rewrite orb_true_r.
Qed.

(** Forty words in one sentence, threshold 30: below both floors. *)
Lemma no_chunk_gives_empty_summary_witness :
  Summarizer.recursive_summarize 1 (words_of "word" 40) 30 (fixed_start "unused")
  = (Some "", fixed_start "unused")
  /\ Showcase.recursive_summarize 1 (words_of "word" 40) 150 30 30 (fixed_start "unused")
     = (Some "", fixed_start "unused").
Proof.
  pose proof (no_chunk_gives_empty_summary (fixed_reply "unused") 0 (words_of "word" 40) 30
                (fixed_start "unused")) as Hc.
  destruct Hc as [Hsum Hshow]; [lia | vm_compute; reflexivity |].
  split.
  - apply Hsum; [vm_compute; discriminate | vm_compute; reflexivity].
  - apply Hshow. vm_compute. reflexivity.
Defined.

(** The claim read literally fails: a 60-word sentence under the default
    threshold 50 of [recursive_summarize] in summarizer.py, and a 40-word
    sentence under the defaults of [iterative_summarization] in the
    showcase, are not empty, exceed the threshold, build no chunk, and come
    back as the empty string, not as the text. *)
Lemma no_chunk_counterexample :
  (words_of "word" 60 <> ""
   /\ Summarizer.default_recursive_threshold < word_count (words_of "word" 60)
   /\ Summarizer.chunk_sentences
        (@Summarizer.split_into_sentences (fixed_reply "unused") (words_of "word" 60)) = []
   /\ Summarizer.recursive_summarize 1 (words_of "word" 60)
        Summarizer.default_recursive_threshold (fixed_start "unused")
      = (Some "", fixed_start "unused")
   /\ Some "" <> Some (words_of "word" 60))
  /\ (words_of "word" 40 <> ""
      /\ Showcase.default_min_length < word_count (words_of "word" 40)
      /\ Showcase.chunk_sentences
           (@Showcase.split_into_sentences (fixed_reply "unused") (words_of "word" 40))
           Showcase.default_max_words Showcase.default_min_words = []
      /\ Showcase.iterative_summarization 1 (words_of "word" 40)
           Showcase.default_max_length Showcase.default_min_length (fixed_start "unused")
         = (Some "", fixed_start "unused")
      /\ Some "" <> Some (words_of "word" 40)).
Proof.
  repeat split; try (vm_compute; reflexivity); vm_compute; discriminate.
Qed.

(** ** The single-sentence stop *)

(** C6. Take any level of the recursion: a text above the threshold, in any
    world (for summarizer.py, a text the splitter does not leave without
    sentences).  If the combined summary of that level splits into exactly
    one sentence, [recursive_summarize] returns it in the world the pass
    left, whatever its word count.  One unit of fuel is enough ([fuel] may
    be 0), so no further level is entered, and the world is the one left by
    this level's pass, so no later call reached the model. *)
Theorem single_sentence_stops (C : Capabilities) (fuel : nat) (text : string)
    (threshold : Z) (w : World) :
  threshold < word_count text ->
  (sent_tokenize text <> [] ->
   len (sent_tokenize (fst (reduction_pass text w))) = 1 ->
   Summarizer.recursive_summarize (S fuel) text threshold w
   = (Some (fst (reduction_pass text w)), snd (reduction_pass text w)))
  /\ (forall max_length min_length,
        len (sent_tokenize (fst (showcase_pass text max_length min_length w))) = 1 ->
        Showcase.recursive_summarize (S fuel) text max_length min_length threshold w
        = (Some (fst (showcase_pass text max_length min_length w)),
           snd (showcase_pass text max_length min_length w))).
Proof.
  intros Hlong. apply Z.leb_gt in Hlong. split.
  - intros Hsome Hone. rewrite summarizer_unfold, Hlong.
    destruct (sent_tokenize text) as [|s ss]; [congruence|].
    destruct (reduction_pass text w) as [combined w']. simpl in *.
    now rewrite Hone.
  - intros max_length min_length Hone. rewrite showcase_unfold, Hlong.
    destruct (showcase_pass text max_length min_length w) as [combined w']. simpl in *.
    now rewrite Hone.
Qed.

(** Two sentences of 80 words, one chunk, and a model that answers with 90
    words and no full stop: the answer is returned at once although it is
    above the threshold 75. *)
Lemma single_sentence_stops_witness :
  75 < word_count (words_of "long" 90)
  /\ fst (Summarizer.recursive_summarize 1
            (words_of "a" 80 +:+ ". " +:+ words_of "b" 80 +:+ ".") 75
            (fixed_start (words_of "long" 90)))
     = Some (words_of "long" 90).
Proof.
  split; [vm_compute; reflexivity|].
  pose proof (single_sentence_stops (fixed_reply (words_of "long" 90)) 0
                (words_of "a" 80 +:+ ". " +:+ words_of "b" 80 +:+ ".") 75
                (fixed_start (words_of "long" 90))) as Hc.
  destruct Hc as [Hsum _]; [vm_compute; reflexivity|].
  rewrite Hsum; [vm_compute; reflexivity | vm_compute; discriminate | vm_compute; reflexivity].
Defined.

(** ** Order *)

Lemma reduction_pass_trace (C : Capabilities) (text : string) (w : World) :
  exists summaries,
    reduction_pass text w = (join " " summaries, snd (reduction_pass text w))
    /\ length summaries = length (Summarizer.chunk_sentences (sent_tokenize text))
    /\ trace (snd (reduction_pass text w))
       = trace w ++ level_calls "summarize : " summarizer_default_kwargs
                      (Summarizer.chunk_sentences (sent_tokenize text)) summaries.
Proof.
  unfold reduction_pass, Summarizer.split_into_sentences, bind, ret.
  pose proof (for_each_invoke "summarize : " summarizer_default_kwargs
                (Summarizer.chunk_sentences (sent_tokenize text)) w) as Hf.
  change (fun chunk => invoke_model ("summarize : " +:+ chunk) summarizer_default_kwargs)
    with Summarizer.model_summarize_default in Hf.
  destruct (for_each _ _ w) as [summaries w']. exists summaries. simpl.
  destruct Hf as [Hlen Htrace]. auto.
Qed.

(** A level of [recursive_summarize] that reaches the model: the summaries,
    the world they leave, and what the call does with their join. *)
Lemma summarizer_level (C : Capabilities) (fuel : nat) (text : string) (threshold : Z)
    (w : World) :
  threshold < word_count text ->
  sent_tokenize text <> [] ->
  exists summaries w1,
    length summaries = length (Summarizer.chunk_sentences (sent_tokenize text))
    /\ reduction_pass text w = (join " " summaries, w1)
    /\ trace w1
       = trace w ++ level_calls "summarize : " summarizer_default_kwargs
                      (Summarizer.chunk_sentences (sent_tokenize text)) summaries
    /\ Summarizer.recursive_summarize (S fuel) text threshold w
       = (if len (sent_tokenize (join " " summaries)) =? 1
          then (Some (join " " summaries), w1)
          else if word_count (join " " summaries) >? threshold
               then Summarizer.recursive_summarize fuel (join " " summaries) threshold w1
               else (Some (join " " summaries), w1)).
Proof.
  intros Hlong Hsome. apply Z.leb_gt in Hlong.
  destruct (reduction_pass_trace C text w) as (summaries & Hpass & Hlen & Htrace).
  exists summaries, (snd (reduction_pass text w)).
  split; [exact Hlen|]. split; [exact Hpass|]. split; [exact Htrace|].
  rewrite summarizer_unfold, Hlong.
  destruct (sent_tokenize text) as [|s ss]; [congruence|].
  now rewrite Hpass.
Qed.

(** C7. (a) The chunks of summarizer.py are the joins of groups of
    sentences which, read group by group, form a subsequence of the input
    sentences in their original order.  (b) At every level of
    [recursive_summarize] that reaches the model (a text above the threshold
    with at least one sentence), the model is called once per chunk in chunk
    order: the trace grows by one call per chunk, call [i] prompting chunk
    [i] and returning summary [i]; and what [recursive_summarize] then tests,
    returns or recurses on is the single-space join of these summaries in
    that order, in the world these calls left. *)
Theorem order_preserved (C : Capabilities) (sentences : list string) (fuel : nat)
    (text : string) (threshold : Z) (w : World) :
  (Summarizer.chunk_sentences sentences = map (join " ") (chunk_groups sentences 300 75)
   /\ concat (chunk_groups sentences 300 75) `sublist_of` sentences)
  /\ (threshold < word_count text ->
      sent_tokenize text <> [] ->
      exists summaries w1,
        length summaries = length (Summarizer.chunk_sentences (sent_tokenize text))
        /\ trace w1
           = trace w ++ level_calls "summarize : " summarizer_default_kwargs
                          (Summarizer.chunk_sentences (sent_tokenize text)) summaries
        /\ Summarizer.recursive_summarize (S fuel) text threshold w
           = (if len (sent_tokenize (join " " summaries)) =? 1
              then (Some (join " " summaries), w1)
              else if word_count (join " " summaries) >? threshold
                   then Summarizer.recursive_summarize fuel (join " " summaries) threshold w1
                   else (Some (join " " summaries), w1))).
Proof.
  split.
  - split; [apply chunk_sentences_groups | apply chunk_groups_sublist].
  - intros Hlong Hsome.
    destruct (summarizer_level C fuel text threshold w Hlong Hsome)
      as (summaries & w1 & Hlen & _ & Htrace & Hrun).
    exists summaries, w1. auto.
Qed.

(** Three tagged sentences of 100, 250 and 100 words make three chunks; a
    model that echoes the first word of its chunk shows the tags coming
    back in ascending order. *)
Example order_preserved_tags :
  fst (reduction_pass
         ("SENT1 " +:+ words_of "a" 98 +:+ " end. SENT2 " +:+ words_of "b" 248
          +:+ " end. SENT3 " +:+ words_of "c" 98 +:+ " end.")
         first_word_start)
  = "SENT1. SENT2. SENT3.".
Proof. vm_compute. reflexivity. Qed.

(** The same text through [recursive_summarize]: three calls, prompted by
    the three chunks in order, and the join of their answers returned. *)
Example recursive_summarize_tags :
  fst (Summarizer.recursive_summarize 1 tagged_text 75 first_word_start)
  = Some "SENT1. SENT2. SENT3."
  /\ map call_output
       (trace (snd (Summarizer.recursive_summarize 1 tagged_text 75 first_word_start)))
     = ["SENT1."; "SENT2."; "SENT3."]
  /\ map call_prompt
       (trace (snd (Summarizer.recursive_summarize 1 tagged_text 75 first_word_start)))
     = map (String.append "summarize : ")
         (Summarizer.chunk_sentences (mock_sent_tokenize tagged_text)).
Proof. vm_compute. repeat split. Qed.

Lemma order_preserved_witness :
  exists summaries w1,
    length summaries
    = length (Summarizer.chunk_sentences (@sent_tokenize first_word_reply tagged_text))
    /\ trace w1
       = trace first_word_start
         ++ level_calls "summarize : " summarizer_default_kwargs
              (Summarizer.chunk_sentences (@sent_tokenize first_word_reply tagged_text))
              summaries
    /\ Summarizer.recursive_summarize 1 tagged_text 75 first_word_start
       = (if len (@sent_tokenize first_word_reply (join " " summaries)) =? 1
          then (Some (join " " summaries), w1)
          else if word_count (join " " summaries) >? 75
               then Summarizer.recursive_summarize 0 (join " " summaries) 75 w1
               else (Some (join " " summaries), w1)).
Proof.
  apply (proj2 (order_preserved first_word_reply [] 0 tagged_text 75 first_word_start)).
  - vm_compute. reflexivity.
  - vm_compute. discriminate.
Defined.

(** ** Length arguments *)

Lemma level_calls_kwargs (prefix : string) (kw : Kwargs) (chunks summaries : list string) :
  Forall (fun call => call_kwargs call = kw) (level_calls prefix kw chunks summaries).
Proof.
  revert summaries. induction chunks as [|c chunks IH]; intros [|s summaries];
    simpl; constructor; [reflexivity | apply IH].
Qed.

(** Every call a run of [recursive_summarize] adds to the trace carries the
    default keyword arguments. *)
Lemma recursive_summarize_calls (C : Capabilities) (fuel : nat) (text : string)
    (threshold : Z) (w : World) :
  exists calls,
    trace (snd (Summarizer.recursive_summarize fuel text threshold w)) = trace w ++ calls
    /\ Forall (fun call => call_kwargs call = summarizer_default_kwargs) calls.
Proof.
  revert text w. induction fuel as [|fuel IH]; intros text w.
  - exists []. simpl. now rewrite app_nil_r.
  - assert (Hnone : exists calls : list GenerateCall,
               trace w = trace w ++ calls
               /\ Forall (fun call => call_kwargs call = summarizer_default_kwargs) calls)
      by (exists []; now rewrite app_nil_r).
    rewrite summarizer_unfold.
    destruct (word_count text <=? threshold); [exact Hnone|].
    destruct (sent_tokenize text) as [|s ss] eqn:Hsent; [exact Hnone|].
    destruct (reduction_pass_trace C text w) as (summaries & Hpass & _ & Htrace).
    rewrite Hpass.
    set (w' := snd (reduction_pass text w)) in *.
    set (calls := level_calls _ _ _ _) in Htrace.
    assert (Hlevel : exists calls0 : list GenerateCall,
               trace w' = trace w ++ calls0
               /\ Forall (fun call => call_kwargs call = summarizer_default_kwargs) calls0)
      by (exists calls; split; [exact Htrace | apply level_calls_kwargs]).
    destruct (len (sent_tokenize (join " " summaries)) =? 1); [exact Hlevel|].
    destruct (word_count (join " " summaries) >? threshold); [|exact Hlevel].
    destruct (IH (join " " summaries) w') as (later & Hlater & Hkw).
    exists (calls ++ later). split.
    + now rewrite Hlater, Htrace, app_assoc.
    + apply Forall_app. split; [apply level_calls_kwargs | exact Hkw].
Qed.

(** C10. (a) [model_summarize] of summarizer.py makes one generation call,
    and whatever is passed as [min_length], the call's [min_length] is 30
    (its [max_length] is the one passed).  (b) Every generation call of a
    run of [recursive_summarize] carries the default keyword arguments, in
    which [max_length] is 200 and [min_length] is 30, whatever the text and
    the threshold: no length setting of the caller reaches the model. *)
Theorem min_length_argument_ignored (C : Capabilities) (text_chunk : string)
    (max_length min_length num_beams : Z) (temperature : float) (top_k : Z)
    (top_p : float) (fuel : nat) (text : string) (threshold : Z) (w : World) :
  (exists call,
     trace (snd (Summarizer.model_summarize text_chunk max_length min_length num_beams
                   temperature top_k top_p w)) = trace w ++ [call]
     /\ call_prompt call = "summarize : " +:+ text_chunk
     /\ kwarg "min_length" (call_kwargs call) = Some (PyInt 30)
     /\ kwarg "max_length" (call_kwargs call) = Some (PyInt max_length))
  /\ (exists calls,
        trace (snd (Summarizer.recursive_summarize fuel text threshold w))
        = trace w ++ calls
        /\ Forall (fun call => call_kwargs call = summarizer_default_kwargs) calls)
  /\ kwarg "max_length" summarizer_default_kwargs = Some (PyInt 200)
  /\ kwarg "min_length" summarizer_default_kwargs = Some (PyInt 30).
Proof.
  split; [|split; [apply recursive_summarize_calls | split; reflexivity]].
  unfold Summarizer.model_summarize, invoke_model.
  destruct (generate _ _ _) as [out st']. simpl.
  eexists. split; [reflexivity|]. repeat split.
Qed.

(** Asking for [min_length] 5 or for 120 makes the same call. *)
Example min_length_argument_ignored_demo :
  Summarizer.model_summarize "some chunk" 200 5 4 0.3%float 50 0.95%float
    (fixed_start "reply")
  = Summarizer.model_summarize "some chunk" 200 120 4 0.3%float 50 0.95%float
      (fixed_start "reply").
Proof. reflexivity. Qed.

(** ** Loss inside the stream *)

Lemma contains_false_of_chunks (lost : string) (chunks : list string) :
  forallb (fun c => negb (contains lost c)) chunks = true ->
  forall c, c ∈ chunks -> contains lost c = false.
Proof.
  intros Hall c Hc. rewrite forallb_forall in Hall.
  apply list_elem_of_In in Hc. apply Hall in Hc.
  now apply negb_true_iff.
Qed.

(** C9. (a) There is a sentence sequence with a sentence that is followed by
    others and whose text occurs in no chunk, in summarizer.py and in the
    showcase at its defaults.  (b) In the loop, whenever the running count
    is below the floor and the next sentence would take the total above 300,
    the state after the step has the same emitted chunks and a running chunk
    made of the new sentence only: the sentences that were running are
    gone. *)
Theorem content_lost_mid_stream :
  (exists before lost after,
     after <> []
     /\ (forall c, c ∈ Summarizer.chunk_sentences (before ++ lost :: after) ->
                   contains lost c = false)
     /\ (forall c, c ∈ Showcase.chunk_sentences (before ++ lost :: after)
                         Showcase.default_max_words Showcase.default_min_words ->
                   contains lost c = false))
  /\ (forall chunks current count sentence,
        count < 75 -> 300 < count + word_count sentence ->
        Summarizer.chunk_step (chunks, current, count) sentence
        = (chunks, [sentence], word_count sentence))
  /\ (forall max_words min_words chunks current count sent,
        count < min_words -> max_words < count + word_count sent ->
        Showcase.chunk_step max_words min_words (chunks, current, count) sent
        = (chunks, [sent], word_count sent)).
Proof.
  split; [|split].
  - exists [], "Lost opening remark.",
           [words_of "kept" 297 +:+ " end."; words_of "tail" 79 +:+ " end."].
    split; [discriminate|]. split.
    + apply contains_false_of_chunks. vm_compute. reflexivity.
    + apply contains_false_of_chunks. vm_compute. reflexivity.
  - intros chunks current count sentence Hlow Hover.
    unfold Summarizer.chunk_step. fold (word_count sentence).
    apply Z.leb_gt in Hover. rewrite Hover.
    assert (Hge : (count >=? 75) = false) by (rewrite Z.geb_leb; apply Z.leb_gt; lia).
    now rewrite Hge.
  - intros max_words min_words chunks current count sent Hlow Hover.
    unfold Showcase.chunk_step. fold (word_count sent).
    apply Z.leb_gt in Hover. rewrite Hover.
    assert (Hge : (count >=? min_words) = false) by (rewrite Z.geb_leb; apply Z.leb_gt; lia).
    now rewrite Hge.
Qed.

(** The three-word opening is running when a 298-word sentence arrives; the
    chunks that come out are the second and the third sentence. *)
Lemma content_lost_mid_stream_witness :
  Summarizer.chunk_step ([], ["Lost opening remark."], 3) (words_of "kept" 297 +:+ " end.")
  = ([], [words_of "kept" 297 +:+ " end."], word_count (words_of "kept" 297 +:+ " end."))
  /\ Summarizer.chunk_sentences
       ["Lost opening remark."; words_of "kept" 297 +:+ " end."; words_of "tail" 79 +:+ " end."]
     = [words_of "kept" 297 +:+ " end."; words_of "tail" 79 +:+ " end."].
Proof.
  split; [|vm_compute; reflexivity].
  apply (proj1 (proj2 content_lost_mid_stream)); [lia | vm_compute; reflexivity].
Defined.

(** ** Termination under a model with a fixed short answer *)

Lemma total_words_sublist (l k : list string) :
  l `sublist_of` k -> total_words l <= total_words k.
Proof.
  induction 1 as [|x l k _ IH|x l k _ IH]; simpl; [lia | lia |].
  pose proof (word_count_nonneg x). lia.
Qed.

Lemma total_words_concat_floor (m : Z) (groups : list (list string)) :
  Forall (fun g => m <= total_words g) groups ->
  m * len groups <= total_words (concat groups).
Proof.
  unfold len. induction 1 as [|g groups Hg _ IH]; simpl concat; [simpl; lia|].
  rewrite total_words_app. simpl length. lia.
Qed.

(** Each chunk of summarizer.py uses up at least 75 words of the input. *)
Lemma chunk_count_bound (sentences : list string) :
  75 * len (Summarizer.chunk_sentences sentences) <= total_words sentences.
Proof.
  rewrite summarizer_chunk_sentences, chunk_sentences_groups.
  unfold len. rewrite length_map. fold (len (chunk_groups sentences 300 75)).
  etransitivity; [apply total_words_concat_floor, chunk_groups_floor|].
  apply total_words_sublist, chunk_groups_sublist.
Qed.

Lemma for_each_fixed (C : Capabilities) (reply : string) (f : string -> Gen string)
    (chunks : list string) (w : World) :
  (forall chunk w0, fst (f chunk w0) = reply) ->
  fst (for_each f chunks w) = replicate (length chunks) reply.
Proof.
  intros Hf. revert w. induction chunks as [|c chunks IH]; intros w; [reflexivity|].
  simpl. unfold bind. specialize (Hf c w).
  destruct (f c w) as [out w1]. specialize (IH w1).
  destruct (for_each f chunks w1) as [outs w2]. simpl in *. congruence.
Qed.

(** More fuel does not change a result that was reached. *)
Lemma recursive_summarize_more_fuel (C : Capabilities) (fuel extra : nat) (text : string)
    (threshold : Z) (w : World) (summary : string) (w' : World) :
  Summarizer.recursive_summarize fuel text threshold w = (Some summary, w') ->
  Summarizer.recursive_summarize (fuel + extra) text threshold w = (Some summary, w').
Proof.
  revert text w. induction fuel as [|fuel IH]; intros text w; [discriminate|].
  change (S fuel + extra)%nat with (S (fuel + extra)).
  rewrite !summarizer_unfold.
  destruct (word_count text <=? threshold); [auto|].
  destruct (sent_tokenize text); [auto|].
  destruct (reduction_pass text w) as [combined w1].
  destruct (len (sent_tokenize combined) =? 1); [auto|].
  destruct (word_count combined >? threshold); [apply IH | auto].
Qed.

Section FixedReply.

Context (C : Capabilities) (reply : string) (threshold : Z).

(** The model answers every prompt with [reply], of fewer than 75 words. *)
Hypothesis generate_fixed : forall st prompt kw, fst (generate st prompt kw) = reply.
Hypothesis reply_short : word_count reply < 75.

(** The splitter adds no word to a join of copies of the answer. *)
Hypothesis copies_keep_words : forall n, adds_no_word (copies reply n).

Hypothesis threshold_nonneg : 0 <= threshold.

(** A pass returns one copy of the answer per chunk. *)
Lemma reduction_pass_fixed (text : string) (w : World) :
  fst (reduction_pass text w)
  = copies reply (length (Summarizer.chunk_sentences (sent_tokenize text))).
Proof.
  unfold reduction_pass, Summarizer.split_into_sentences, bind, ret, copies.
  pose proof (for_each_fixed C reply Summarizer.model_summarize_default
                (Summarizer.chunk_sentences (sent_tokenize text)) w) as Hf.
  destruct (for_each _ _ w) as [summaries w']. simpl in *. rewrite Hf; [reflexivity|].
  intros chunk w0. rewrite summarizer_default_call. unfold invoke_model.
  pose proof (generate_fixed (model_state w0) ("summarize : " +:+ chunk)
                summarizer_default_kwargs) as Hreply.
  destruct (generate _ _ _) as [out st']. exact Hreply.
Qed.

Lemma word_count_copies (n : nat) :
  word_count (copies reply n) = Z.of_nat n * word_count reply.
Proof. unfold copies. now rewrite word_count_join, total_words_replicate. Qed.

(** One pass turns 75 words of text into at most one answer. *)
Lemma reduction_pass_ratio (text : string) (w : World) :
  adds_no_word text ->
  75 * word_count (fst (reduction_pass text w)) <= word_count reply * word_count text.
Proof.
  intros Hkeep. rewrite reduction_pass_fixed, word_count_copies.
  pose proof (chunk_count_bound (sent_tokenize text)) as Hn.
  pose proof (word_count_nonneg reply) as Hr.
  unfold adds_no_word in Hkeep. unfold len in Hn.
  set (n := Z.of_nat (length (Summarizer.chunk_sentences (sent_tokenize text)))) in *.
  nia.
Qed.

Lemma reduction_pass_shrinks (text : string) (w : World) :
  adds_no_word text ->
  threshold < word_count text ->
  word_count (fst (reduction_pass text w)) < word_count text.
Proof.
  intros Hkeep Hlong. pose proof (reduction_pass_ratio text w Hkeep) as Hratio.
  pose proof (word_count_nonneg reply) as Hr.
  pose proof (word_count_nonneg (fst (reduction_pass text w))) as Hc.
  nia.
Qed.

(** When a pass leaves more than [threshold] words, the text had at least 75
    words and the quotient by 75 has gone down. *)
Lemma reduction_pass_measure (text : string) (w : World) :
  adds_no_word text ->
  threshold < word_count (fst (reduction_pass text w)) ->
  word_count (fst (reduction_pass text w)) / 75 < word_count text / 75.
Proof.
  intros Hkeep Hlong. rewrite reduction_pass_fixed, word_count_copies in *.
  pose proof (chunk_count_bound (sent_tokenize text)) as Hn.
  pose proof (word_count_nonneg reply) as Hr.
  unfold adds_no_word in Hkeep. unfold len in Hn.
  set (n := Z.of_nat (length (Summarizer.chunk_sentences (sent_tokenize text)))) in *.
  assert (Hpos : 1 <= n) by nia.
  apply Z.lt_le_trans with n.
  - apply Z.div_lt_upper_bound; nia.
  - apply Z.div_le_lower_bound; nia.
Qed.

Lemma terminates_within (n : nat) (text : string) (w : World) :
  adds_no_word text ->
  word_count text / 75 <= Z.of_nat n ->
  exists summary w',
    Summarizer.recursive_summarize (S n) text threshold w = (Some summary, w').
Proof.
  revert text w. induction n as [|n IH]; intros text w Hkeep Hmeasure;
    rewrite summarizer_unfold.
  - destruct (word_count text <=? threshold); [eauto|].
    destruct (sent_tokenize text); [eauto|].
    pose proof (reduction_pass_measure text w Hkeep) as Hdown.
    pose proof (word_count_nonneg (fst (reduction_pass text w))) as Hc.
    destruct (reduction_pass text w) as [combined w1]. simpl in *.
    destruct (len (sent_tokenize combined) =? 1); [eauto|].
    destruct (word_count combined >? threshold) eqn:Hlong; [|eauto].
    rewrite Z.gtb_ltb in Hlong. apply Z.ltb_lt in Hlong. specialize (Hdown Hlong).
    assert (0 <= word_count combined / 75) by (apply Z.div_pos; lia). lia.
  - destruct (word_count text <=? threshold); [eauto|].
    destruct (sent_tokenize text); [eauto|].
    pose proof (reduction_pass_measure text w Hkeep) as Hdown.
    pose proof (reduction_pass_fixed text w) as Hcopies.
    destruct (reduction_pass text w) as [combined w1]. simpl in *.
    destruct (len (sent_tokenize combined) =? 1); [eauto|].
    destruct (word_count combined >? threshold) eqn:Hlong; [|eauto].
    rewrite Z.gtb_ltb in Hlong. apply Z.ltb_lt in Hlong. specialize (Hdown Hlong).
    apply IH; [rewrite Hcopies; apply copies_keep_words | lia].
Qed.

End FixedReply.

(** The stand-in splitter keeps every word. *)
Lemma total_words_flush_sentence (cur : string) :
  total_words (flush_sentence cur) = word_count cur.
Proof.
  unfold flush_sentence. destruct (word_count cur =? 0) eqn:Hz; simpl; [|lia].
  apply Z.eqb_eq in Hz. lia.
Qed.

Lemma mock_sentences_words (s : string) (after_stop : bool) (cur : string) :
  total_words (mock_sentences after_stop cur s) = word_count (cur +:+ s).
Proof.
  revert after_stop cur. induction s as [|c s IH]; intros after_stop cur; simpl.
  - now rewrite append_nil_r, total_words_flush_sentence.
  - destruct (after_stop && isspace c) eqn:Hcut.
    + apply andb_true_iff in Hcut as [_ Hspace].
      rewrite total_words_app, total_words_flush_sentence, IH, append_nil.
      now rewrite word_count_sep.
    + rewrite IH, append_assoc. reflexivity.
Qed.

Lemma mock_sent_tokenize_words (t : string) :
  total_words (mock_sent_tokenize t) <= word_count t.
Proof.
  unfold mock_sent_tokenize. rewrite mock_sentences_words, append_nil. lia.
Qed.

(** C8, as the code has it.  Let the model answer every prompt with one
    fixed text of fewer than 75 words (the floor of a chunk), let the
    threshold be at least 0, and let the splitter add no word to the input
    text nor to any single-space join of copies of the answer.  Then
    (a) at every level that such a run can reach (the text itself, or a join
    of copies of the answer, above the threshold and with a sentence),
    [recursive_summarize] goes on with a combined summary of strictly fewer
    words, at most one answer per 75 words; and (b) [recursive_summarize]
    returns a summary within [word_count text / 75 + 1] levels; more fuel
    gives the same result. *)
Theorem terminates_under_fixed_reply (C : Capabilities) (reply : string) (threshold : Z)
    (text : string) (w : World) :
  (forall st prompt kw, fst (generate st prompt kw) = reply) ->
  word_count reply < 75 ->
  0 <= threshold ->
  adds_no_word text ->
  (forall n, adds_no_word (copies reply n)) ->
  (forall fuel level w0,
     level = text \/ (exists n, level = copies reply n) ->
     threshold < word_count level ->
     sent_tokenize level <> [] ->
     exists combined w1,
       word_count combined < word_count level
       /\ 75 * word_count combined <= word_count reply * word_count level
       /\ Summarizer.recursive_summarize (S fuel) level threshold w0
          = (if len (sent_tokenize combined) =? 1 then (Some combined, w1)
             else if word_count combined >? threshold
                  then Summarizer.recursive_summarize fuel combined threshold w1
                  else (Some combined, w1)))
  /\ exists summary w',
       forall fuel, (S (Z.to_nat (word_count text / 75)) <= fuel)%nat ->
         Summarizer.recursive_summarize fuel text threshold w = (Some summary, w').
Proof.
  intros Hfixed Hshort Hthr Hkeep Hcopies. split.
  - intros fuel level w0 Hlevel Hlong Hsome.
    assert (Hkeep' : adds_no_word level)
      by (destruct Hlevel as [-> | [n ->]]; [exact Hkeep | apply Hcopies]).
    destruct (summarizer_level C fuel level threshold w0 Hlong Hsome)
      as (summaries & w1 & _ & Hpass & _ & Hrun).
    exists (join " " summaries), w1.
    pose proof (reduction_pass_shrinks C reply threshold Hfixed Hshort Hthr level w0 Hkeep' Hlong)
      as Hshrink.
    pose proof (reduction_pass_ratio C reply Hfixed Hshort level w0 Hkeep') as Hratio.
    rewrite Hpass in Hshrink, Hratio. auto.
  - destruct (terminates_within C reply threshold Hfixed Hshort Hcopies Hthr
                (Z.to_nat (word_count text / 75)) text w Hkeep) as (summary & w' & Hrun).
    { pose proof (word_count_nonneg text).
      assert (0 <= word_count text / 75) by (apply Z.div_pos; lia). lia. }
    exists summary, w'. intros fuel Hfuel.
    replace fuel with (S (Z.to_nat (word_count text / 75))
                       + (fuel - S (Z.to_nat (word_count text / 75))))%nat by lia.
    now apply recursive_summarize_more_fuel.
Qed.

(** 1200 words in twelve sentences make four chunks; the four 40-word
    answers make one chunk at the second level, whose answer is a single
    sentence. *)
Example terminates_in_two_levels :
  fst (Summarizer.recursive_summarize 1 twelve_sentences 75 (fixed_start forty_word_reply))
  = None
  /\ fst (Summarizer.recursive_summarize 2 twelve_sentences 75 (fixed_start forty_word_reply))
     = Some forty_word_reply
  /\ length (trace (snd (Summarizer.recursive_summarize 2 twelve_sentences 75
                           (fixed_start forty_word_reply)))) = 5%nat.
Proof. vm_compute. repeat split. Qed.

Lemma mock_adds_no_word (reply t : string) : @adds_no_word (fixed_reply reply) t.
Proof. apply mock_sent_tokenize_words. Qed.

Lemma terminates_under_fixed_reply_witness :
  exists summary w',
    forall fuel, (17 <= fuel)%nat ->
      Summarizer.recursive_summarize fuel twelve_sentences 75
        (fixed_start forty_word_reply) = (Some summary, w').
Proof.
  destruct (terminates_under_fixed_reply (fixed_reply forty_word_reply) forty_word_reply 75
              twelve_sentences (fixed_start forty_word_reply))
    as (_ & summary & w' & Hrun).
  - reflexivity.
  - vm_compute. reflexivity.
  - lia.
  - apply mock_adds_no_word.
  - intros n. apply mock_adds_no_word.
  - exists summary, w'. intros fuel Hfuel. apply Hrun.
    replace (S (Z.to_nat (word_count twelve_sentences / 75))) with 17%nat
      by (vm_compute; reflexivity).
    exact Hfuel.
Defined.

(** Behind a splitter that cuts inside a white-space token, the run on the
    60-word answer itself never returns: its 21 sentences hold 80 words and
    make one chunk, whose answer is the same 60 words again. *)
Lemma looping_reply_pass (w : @World (marked_reply looping_reply)) :
  fst (reduction_pass looping_reply w) = looping_reply.
Proof.
  rewrite (reduction_pass_fixed (marked_reply looping_reply) looping_reply)
    by reflexivity.
  reflexivity.
Qed.

Lemma looping_reply_never_returns (fuel : nat) (w : @World (marked_reply looping_reply)) :
  fst (Summarizer.recursive_summarize fuel looping_reply
         Summarizer.default_recursive_threshold w) = None.
Proof.
  revert w. induction fuel as [|fuel IH]; intros w; [reflexivity|].
  destruct (summarizer_level (marked_reply looping_reply) fuel looping_reply
              Summarizer.default_recursive_threshold w)
    as (summaries & w1 & _ & Hpass & _ & Hrun);
    [vm_compute; reflexivity | vm_compute; discriminate |].
  pose proof (looping_reply_pass w) as Hsame. rewrite Hpass in Hsame. simpl in Hsame.
  rewrite Hrun, Hsame.
  replace (len (sent_tokenize looping_reply) =? 1) with false by (vm_compute; reflexivity).
  replace (word_count looping_reply >? Summarizer.default_recursive_threshold) with true
    by (vm_compute; reflexivity).
  apply IH.
Qed.

(** The claim read without a condition on the splitter fails.  The model
    always answers with the same 60 words, fewer than the floor 75; the run
    starts from that text under the default threshold 50 of
    [recursive_summarize]; the pass returns 60 words for 60 words, and the
    call returns for no fuel. *)
Lemma fixed_reply_counterexample :
  word_count looping_reply = 60
  /\ (forall st prompt kw,
        fst (@generate (marked_reply looping_reply) st prompt kw) = looping_reply)
  /\ Summarizer.default_recursive_threshold < word_count looping_reply
  /\ total_words (@sent_tokenize (marked_reply looping_reply) looping_reply) = 80
  /\ word_count (fst (reduction_pass looping_reply (marked_start looping_reply)))
     = word_count looping_reply
  /\ (forall fuel,
        fst (Summarizer.recursive_summarize fuel looping_reply
               Summarizer.default_recursive_threshold (marked_start looping_reply))
        = None).
Proof.
  split; [vm_compute; reflexivity|]. split; [reflexivity|].
  split; [vm_compute; reflexivity|]. split; [vm_compute; reflexivity|].
  split; [now rewrite looping_reply_pass|].
  intros fuel. apply looping_reply_never_returns.
Qed.

(** * Further properties of the engine *)

(** ** Chunking *)

(** While everything fits, the loop only accumulates. *)
Lemma group_loop_fits (sentences : list string) (max_words min_words : Z) :
  total_words sentences <= max_words ->
  group_loop sentences max_words min_words = ([], sentences, total_words sentences).
Proof.
  unfold group_loop.
  induction sentences as [|x ss IH] using rev_ind; intros Hfit; [reflexivity|].
  rewrite total_words_app in Hfit. simpl in Hfit.
  pose proof (word_count_nonneg x) as Hx.
  rewrite fold_left_snoc, IH by lia. unfold group_step. fold (word_count x).
  assert (Hle : (total_words ss + word_count x <=? max_words) = true)
    by (apply Z.leb_le; lia).
  rewrite Hle, total_words_app. simpl. do 2 f_equal. lia.
Qed.

Lemma chunk_groups_fits (sentences : list string) (max_words min_words : Z) :
  total_words sentences <= max_words ->
  chunk_groups sentences max_words min_words
  = if total_words sentences >=? min_words then [sentences] else [].
Proof.
  intros Hfit. unfold chunk_groups. now rewrite group_loop_fits.
Qed.

(** X1. When the sentences together have at most 300 words the loop never
    flushes: the result is the one chunk joining all sentences if they reach
    the floor (75 words in summarizer.py, 50 in the showcase), and no chunk
    at all if they do not. *)
Theorem fitting_input_one_chunk (sentences : list string) :
  total_words sentences <= 300 ->
  Summarizer.chunk_sentences sentences
  = (if total_words sentences >=? 75 then [join " " sentences] else [])
  /\ Showcase.chunk_sentences sentences Showcase.default_max_words
       Showcase.default_min_words
     = (if total_words sentences >=? 50 then [join " " sentences] else []).
Proof.
  intros Hfit. rewrite summarizer_chunk_sentences, !chunk_sentences_groups.
  unfold Showcase.default_max_words, Showcase.default_min_words.
  rewrite !chunk_groups_fits by exact Hfit.
  split; [destruct (total_words sentences >=? 75) | destruct (total_words sentences >=? 50)];
    reflexivity.
Qed.

(** Two sentences of 30 words: one chunk of 60 words in the showcase, none
    in summarizer.py. *)
Lemma fitting_input_one_chunk_witness :
  Summarizer.chunk_sentences [words_of "a" 30; words_of "b" 30] = []
  /\ Showcase.chunk_sentences [words_of "a" 30; words_of "b" 30] 300 50
     = [words_of "a" 30 +:+ " " +:+ words_of "b" 30].
Proof.
  destruct (fitting_input_one_chunk [words_of "a" 30; words_of "b" 30]) as [Hsum Hshow];
    [vm_compute; discriminate|].
  split; [rewrite Hsum | etransitivity; [exact Hshow|]]; vm_compute; reflexivity.
Defined.

(** Once the input holds [min_words] words, either a group was emitted, or
    the running chunk has reached the floor, or nothing was flushed yet. *)
Lemma group_loop_some_group (sentences : list string) (max_words min_words : Z) :
  2 * min_words <= max_words + 1 ->
  let '(groups, current, count) := group_loop sentences max_words min_words in
  groups <> [] \/ min_words <= count \/ count = total_words sentences.
Proof.
  intros Hhalf. unfold group_loop.
  induction sentences as [|x ss IH] using rev_ind; [right; right; reflexivity|].
  rewrite fold_left_snoc.
  destruct (fold_left _ ss _) as [[groups current] count].
  pose proof (word_count_nonneg x) as Hx.
  unfold group_step. fold (word_count x).
  destruct (count + word_count x <=? max_words) eqn:Hfit.
  - destruct IH as [Hg | [Hc | Hc]]; [now left | right; left; lia |].
    right. right. rewrite total_words_app. simpl. lia.
  - apply Z.leb_gt in Hfit.
    destruct (count >=? min_words) eqn:Hge.
    + left. now destruct groups.
    + rewrite Z.geb_leb in Hge. apply Z.leb_gt in Hge.
      destruct IH as [Hg | [Hc | Hc]]; [now left | lia | right; left; lia].
Qed.

Lemma chunk_groups_some_group (sentences : list string) (max_words min_words : Z) :
  2 * min_words <= max_words + 1 ->
  min_words <= total_words sentences ->
  chunk_groups sentences max_words min_words <> [].
Proof.
  intros Hhalf Henough. unfold chunk_groups.
  pose proof (group_loop_some_group sentences max_words min_words Hhalf) as Hs.
  destruct (group_loop _ _ _) as [[groups current] count].
  destruct (count >=? min_words) eqn:Hge; [now destruct groups|].
  rewrite Z.geb_leb in Hge. apply Z.leb_gt in Hge.
  destruct Hs as [Hg | [Hc | Hc]]; [exact Hg | lia | lia].
Qed.

(** X2. In summarizer.py, sentences that together have at least 75 words
    always yield a chunk.  So with a splitter that loses no word and a
    threshold of at least 74 (the default of [iterative_summarization] is
    75), a text above the threshold always has a chunk, and its reduction
    pass calls the model at least once: the empty join cannot arise. *)
Theorem enough_words_some_chunk (C : Capabilities) (text : string) (threshold : Z)
    (w : World) :
  (forall t, word_count t <= total_words (sent_tokenize t)) ->
  74 <= threshold ->
  threshold < word_count text ->
  Summarizer.chunk_sentences (sent_tokenize text) <> []
  /\ (length (trace w) < length (trace (snd (reduction_pass text w))))%nat.
Proof.
  intros Hkeep Hthr Hlong.
  assert (Hsome : Summarizer.chunk_sentences (sent_tokenize text) <> []).
  { rewrite summarizer_chunk_sentences, chunk_sentences_groups.
    intros Hnil. apply fmap_nil_inv in Hnil. revert Hnil.
    apply chunk_groups_some_group; [lia|].
    specialize (Hkeep text). lia. }
  split; [exact Hsome|].
  destruct (reduction_pass_trace C text w) as (summaries & _ & Hlen & Htrace).
  rewrite Htrace, length_app. unfold level_calls.
  rewrite length_zip_with, Hlen, Nat.min_id.
  destruct (Summarizer.chunk_sentences (sent_tokenize text)); [congruence|]. simpl. lia.
Qed.

Lemma mock_sent_tokenize_keeps_words (t : string) :
  word_count t <= total_words (mock_sent_tokenize t).
Proof.
  unfold mock_sent_tokenize. rewrite mock_sentences_words, append_nil. lia.
Qed.

(** One sentence of 80 words under the default threshold 75. *)
Lemma enough_words_some_chunk_witness :
  Summarizer.chunk_sentences
    (@sent_tokenize (fixed_reply "Short answer.") (words_of "word" 80)) <> []
  /\ (0 < length (trace (snd (reduction_pass (words_of "word" 80)
                                (fixed_start "Short answer.")))))%nat.
Proof.
  apply (enough_words_some_chunk (fixed_reply "Short answer.") (words_of "word" 80)
           Summarizer.default_iterative_threshold (fixed_start "Short answer.")).
  - exact mock_sent_tokenize_keeps_words.
  - vm_compute. discriminate.
  - vm_compute. reflexivity.
Defined.

Lemma total_words_joined (groups : list (list string)) :
  total_words (map (join " ") groups) = total_words (concat groups).
Proof.
  induction groups as [|g groups IH]; [reflexivity|].
  simpl. rewrite total_words_app, word_count_join, IH. reflexivity.
Qed.

(** X3. Chunking creates no word: the chunks of a sentence sequence have
    together at most as many words as the sentences, in summarizer.py and in
    the showcase for any bounds. *)
Theorem chunking_creates_no_word (sentences : list string) (max_words min_words : Z) :
  total_words (Summarizer.chunk_sentences sentences) <= total_words sentences
  /\ total_words (Showcase.chunk_sentences sentences max_words min_words)
     <= total_words sentences.
Proof.
  rewrite summarizer_chunk_sentences, !chunk_sentences_groups, !total_words_joined.
  split; apply total_words_sublist, chunk_groups_sublist.
Qed.

(** The running chunk is the tail of what was consumed, and every emitted
    group is a run of consecutive consumed sentences. *)
Lemma group_loop_consecutive (sentences : list string) (max_words min_words : Z) :
  let '(groups, current, _) := group_loop sentences max_words min_words in
  (exists before, sentences = before ++ current)
  /\ Forall (fun g => consecutive_in g sentences) groups.
Proof.
  unfold group_loop.
  induction sentences as [|x ss IH] using rev_ind.
  - split; [now exists [] | constructor].
  - rewrite fold_left_snoc.
    destruct (fold_left _ ss _) as [[groups current] count].
    destruct IH as [[before Htail] Hgroups].
    assert (Hkeep : Forall (fun g => consecutive_in g (ss ++ [x])) groups).
    { eapply Forall_impl; [exact Hgroups|].
      intros g (b & a & ->). exists b, (a ++ [x]). now rewrite <- !app_assoc. }
    unfold group_step.
    destruct (count + len (split x) <=? max_words).
    + split; [|exact Hkeep]. exists before. now rewrite Htail, <- app_assoc.
    + split; [now exists ss|].
      destruct (count >=? min_words); [|exact Hkeep].
      apply Forall_app. split; [exact Hkeep|].
      apply Forall_singleton. exists before, [x]. now rewrite Htail, <- app_assoc.
Qed.

Lemma chunk_groups_consecutive (sentences : list string) (max_words min_words : Z) :
  Forall (fun g => consecutive_in g sentences) (chunk_groups sentences max_words min_words).
Proof.
  unfold chunk_groups.
  pose proof (group_loop_consecutive sentences max_words min_words) as Hc.
  destruct (group_loop _ _ _) as [[groups current] count].
  destruct Hc as [[before Htail] Hgroups].
  destruct (count >=? min_words); [|exact Hgroups].
  apply Forall_app. split; [exact Hgroups|].
  apply Forall_singleton. exists before, []. now rewrite app_nil_r.
Qed.

(** X4. Every chunk is the single-space join of a run of consecutive input
    sentences: sentences are never reordered, skipped inside a chunk, or
    taken from two places. *)
Theorem chunk_is_consecutive_run (sentences : list string) (max_words min_words : Z)
    (c : string) :
  c ∈ Summarizer.chunk_sentences sentences
  \/ c ∈ Showcase.chunk_sentences sentences max_words min_words ->
  exists g, c = join " " g /\ consecutive_in g sentences.
Proof.
  intros Hc.
  assert (Hgen : forall mx mn, c ∈ Showcase.chunk_sentences sentences mx mn ->
                               exists g, c = join " " g /\ consecutive_in g sentences).
  { intros mx mn Hin. rewrite chunk_sentences_groups in Hin.
    apply list_elem_of_fmap in Hin as (g & -> & Hg). exists g. split; [reflexivity|].
    pose proof (chunk_groups_consecutive sentences mx mn) as Hall.
    rewrite Forall_forall in Hall. now apply Hall. }
  destruct Hc as [Hc | Hc]; [rewrite summarizer_chunk_sentences in Hc|]; eauto.
Qed.

(** Sentences of 100, 190 and 40 words: the chunk is the join of the first
    two, which stand side by side at the head of the input. *)
Lemma chunk_is_consecutive_run_witness :
  exists g,
    words_of "a" 100 +:+ " " +:+ words_of "b" 190 = join " " g
    /\ consecutive_in g [words_of "a" 100; words_of "b" 190; words_of "c" 40].
Proof.
  apply (chunk_is_consecutive_run [words_of "a" 100; words_of "b" 190; words_of "c" 40]
           300 50).
  left.
  replace (Summarizer.chunk_sentences _)
    with [words_of "a" 100 +:+ " " +:+ words_of "b" 190]
    by (vm_compute; reflexivity).
  apply list_elem_of_here.
Defined.

(** ** What a run returns and what it sends to the model *)

Lemma summarizer_result_shape (C : Capabilities) (fuel : nat) (text : string)
    (threshold : Z) (w : World) (summary : string) (w' : World) :
  Summarizer.recursive_summarize fuel text threshold w = (Some summary, w') ->
  word_count summary <= threshold \/ (length (sent_tokenize summary) <= 1)%nat.
Proof.
  revert text w. induction fuel as [|fuel IH]; intros text w; [discriminate|].
  rewrite summarizer_unfold.
  destruct (word_count text <=? threshold) eqn:Hshort.
  { intros [= <- _]. left. now apply Z.leb_le. }
  destruct (sent_tokenize text) as [|s ss] eqn:Hsent.
  { intros [= <- _]. right. rewrite Hsent. simpl. lia. }
  destruct (reduction_pass text w) as [combined w1].
  destruct (len (sent_tokenize combined) =? 1) eqn:Hone.
  { intros [= <- _]. right. apply Z.eqb_eq in Hone. unfold len in Hone. lia. }
  destruct (word_count combined >? threshold) eqn:Hlong; [apply IH|].
  intros [= <- _]. left. rewrite Z.gtb_ltb in Hlong. now apply Z.ltb_ge.
Qed.

Lemma showcase_result_shape (C : Capabilities) (fuel : nat) (text : string)
    (max_length min_length threshold : Z) (w : World) (summary : string) (w' : World) :
  Showcase.recursive_summarize fuel text max_length min_length threshold w
  = (Some summary, w') ->
  word_count summary <= threshold \/ length (sent_tokenize summary) = 1%nat.
Proof.
  revert text w. induction fuel as [|fuel IH]; intros text w; [discriminate|].
  rewrite showcase_unfold.
  destruct (word_count text <=? threshold) eqn:Hshort.
  { intros [= <- _]. left. now apply Z.leb_le. }
  destruct (showcase_pass text max_length min_length w) as [combined w1].
  destruct (len (sent_tokenize combined) =? 1) eqn:Hone; simpl.
  { intros [= <- _]. right. apply Z.eqb_eq in Hone. unfold len in Hone. lia. }
  destruct (word_count combined <=? threshold) eqn:Hfits; [|apply IH].
  intros [= <- _]. left. now apply Z.leb_le.
Qed.

(** X5. Whatever the model answers, a summary that [recursive_summarize]
    returns is within the threshold or is not more than one sentence for the
    splitter (in summarizer.py possibly none, when the text without sentences
    is handed back; in the showcase exactly one). *)
Theorem result_is_short_or_one_sentence (C : Capabilities) (fuel : nat) (text : string)
    (threshold : Z) (w : World) (summary : string) (w' : World) :
  Summarizer.recursive_summarize fuel text threshold w = (Some summary, w')
  \/ (exists max_length min_length,
        Showcase.recursive_summarize fuel text max_length min_length threshold w
        = (Some summary, w')) ->
  word_count summary <= threshold \/ (length (sent_tokenize summary) <= 1)%nat.
Proof.
  intros [Hrun | (max_length & min_length & Hrun)].
  - eapply summarizer_result_shape, Hrun.
  - apply showcase_result_shape in Hrun as [Hshort | Hone]; [now left | right; lia].
Qed.

(** The two-level run on twelve sentences ends with the 40-word answer. *)
Lemma result_is_short_or_one_sentence_witness :
  word_count forty_word_reply <= 75
  \/ (length (@sent_tokenize (fixed_reply forty_word_reply) forty_word_reply) <= 1)%nat.
Proof.
  apply (result_is_short_or_one_sentence (fixed_reply forty_word_reply) 2 twelve_sentences
           75 (fixed_start forty_word_reply) forty_word_reply
           (snd (Summarizer.recursive_summarize 2 twelve_sentences 75
                   (fixed_start forty_word_reply)))).
  left. vm_compute. reflexivity.
Defined.

Lemma level_calls_prompts (prefix : string) (kw : Kwargs) (chunks summaries : list string) :
  Forall (fun call => exists chunk, chunk ∈ chunks /\ call_prompt call = prefix +:+ chunk)
         (level_calls prefix kw chunks summaries).
Proof.
  revert summaries. induction chunks as [|c chunks IH]; intros [|s summaries];
    simpl; constructor.
  - exists c. split; [constructor | reflexivity].
  - eapply Forall_impl; [apply IH|].
    intros call (chunk & Hin & Hprompt). exists chunk. split; [now constructor | exact Hprompt].
Qed.

(** A property of the calls of every level holds of every call of a run. *)
Lemma summarizer_calls_all (C : Capabilities) (P : GenerateCall -> Prop) :
  (forall t summaries,
     Forall P (level_calls "summarize : " summarizer_default_kwargs
                 (Summarizer.chunk_sentences (sent_tokenize t)) summaries)) ->
  forall fuel text threshold w,
    exists calls,
      trace (snd (Summarizer.recursive_summarize fuel text threshold w)) = trace w ++ calls
      /\ Forall P calls.
Proof.
  intros Hlevel fuel. induction fuel as [|fuel IH]; intros text threshold w.
  - exists []. simpl. now rewrite app_nil_r.
  - assert (Hnone : exists calls : list GenerateCall,
               trace w = trace w ++ calls /\ Forall P calls)
      by (exists []; now rewrite app_nil_r).
    rewrite summarizer_unfold.
    destruct (word_count text <=? threshold); [exact Hnone|].
    destruct (sent_tokenize text) as [|s ss] eqn:Hsent; [exact Hnone|].
    destruct (reduction_pass_trace C text w) as (summaries & Hpass & _ & Htrace).
    rewrite Hpass.
    set (w1 := snd (reduction_pass text w)) in *.
    assert (Hhere : exists calls : list GenerateCall,
               trace w1 = trace w ++ calls /\ Forall P calls)
      by (eexists; split; [exact Htrace | apply Hlevel]).
    destruct (len (sent_tokenize (join " " summaries)) =? 1); [exact Hhere|].
    destruct (word_count (join " " summaries) >? threshold); [|exact Hhere].
    destruct (IH (join " " summaries) threshold w1) as (later & Hlater & Hall).
    eexists. split; [rewrite Hlater, Htrace, <- app_assoc; reflexivity|].
    apply Forall_app. split; [apply Hlevel | exact Hall].
Qed.

(** X6. Every prompt that a run of [recursive_summarize] of summarizer.py
    sends to the model is "summarize : " followed by a chunk of at least 75
    words; the chunk has at most 300 words unless it is one whole sentence
    that the splitter returned. *)
Theorem model_never_sees_short_chunk (C : Capabilities) (fuel : nat) (text : string)
    (threshold : Z) (w : World) :
  exists calls,
    trace (snd (Summarizer.recursive_summarize fuel text threshold w)) = trace w ++ calls
    /\ Forall (fun call =>
                 exists chunk,
                   call_prompt call = "summarize : " +:+ chunk
                   /\ 75 <= word_count chunk
                   /\ (word_count chunk <= 300 \/ exists t, chunk ∈ sent_tokenize t))
              calls.
Proof.
  apply summarizer_calls_all. intros t summaries.
  eapply Forall_impl; [apply level_calls_prompts|].
  intros call (chunk & Hin & Hprompt). exists chunk. split; [exact Hprompt|].
  rewrite summarizer_chunk_sentences in Hin. split.
  - now apply showcase_chunk_floor in Hin.
  - apply showcase_chunk_bound in Hin as [Hle | [Hsent _]]; [now left | | lia].
    right. now exists t.
Qed.

(** X7. One level of [recursive_summarize] of summarizer.py calls the model
    once per chunk, hence at most once per 75 words of the sentences it was
    given. *)
Theorem one_level_call_budget (C : Capabilities) (text : string) (threshold : Z) (w : World) :
  75 * (len (trace (snd (Summarizer.recursive_summarize 1 text threshold w)))
        - len (trace w))
  <= total_words (sent_tokenize text).
Proof.
  pose proof (total_words_nonneg (sent_tokenize text)) as Hpos.
  rewrite summarizer_unfold.
  destruct (word_count text <=? threshold); [simpl; lia|].
  destruct (sent_tokenize text) as [|s ss] eqn:Hsent; [simpl; lia|].
  destruct (reduction_pass_trace C text w) as (summaries & Hpass & Hlen & Htrace).
  rewrite Hpass. rewrite Hsent in Hlen, Htrace.
  assert (Hcount : len (trace (snd (reduction_pass text w)))
                   = len (trace w) + len (Summarizer.chunk_sentences (s :: ss))).
  { rewrite Htrace, len_app. f_equal. unfold len, level_calls.
    now rewrite length_zip_with, Hlen, Nat.min_id. }
  pose proof (chunk_count_bound (s :: ss)) as Hbound.
  destruct (len (sent_tokenize (join " " summaries)) =? 1); [cbn [snd]; lia|].
  destruct (word_count (join " " summaries) >? threshold); cbn [snd]; [|lia].
  change (Summarizer.recursive_summarize 0 (join " " summaries) threshold
            (snd (reduction_pass text w)))
    with (@None string, snd (reduction_pass text w)).
  cbn [snd]. lia.
Qed.

Lemma showcase_pass_trace (C : Capabilities) (text : string) (max_length min_length : Z)
    (w : World) :
  exists summaries,
    showcase_pass text max_length min_length w
    = (join " " summaries, snd (showcase_pass text max_length min_length w))
    /\ trace (snd (showcase_pass text max_length min_length w))
       = trace w ++ level_calls "summarize: " (showcase_kwargs max_length min_length)
                      (Showcase.chunk_sentences (sent_tokenize text)
                         Showcase.default_max_words Showcase.default_min_words)
                      summaries.
Proof.
  unfold showcase_pass, Showcase.split_into_sentences, bind, ret.
  pose proof (for_each_invoke "summarize: " (showcase_kwargs max_length min_length)
                (Showcase.chunk_sentences (sent_tokenize text)
                   Showcase.default_max_words Showcase.default_min_words) w) as Hf.
  change (fun chunk => invoke_model ("summarize: " +:+ chunk)
                         (showcase_kwargs max_length min_length))
    with (fun chunk => Showcase.model_summarize chunk max_length min_length []) in Hf.
  destruct (for_each _ _ w) as [summaries w']. exists summaries. simpl.
  destruct Hf as [_ Htrace]. auto.
Qed.

Lemma showcase_calls_all (C : Capabilities) (max_length min_length : Z)
    (P : GenerateCall -> Prop) :
  (forall t summaries,
     Forall P (level_calls "summarize: " (showcase_kwargs max_length min_length)
                 (Showcase.chunk_sentences (sent_tokenize t)
                    Showcase.default_max_words Showcase.default_min_words)
                 summaries)) ->
  forall fuel text threshold w,
    exists calls,
      trace (snd (Showcase.recursive_summarize fuel text max_length min_length threshold w))
      = trace w ++ calls
      /\ Forall P calls.
Proof.
  intros Hlevel fuel. induction fuel as [|fuel IH]; intros text threshold w.
  - exists []. simpl. now rewrite app_nil_r.
  - rewrite showcase_unfold.
    destruct (word_count text <=? threshold).
    { exists []. simpl. now rewrite app_nil_r. }
    destruct (showcase_pass_trace C text max_length min_length w)
      as (summaries & Hpass & Htrace).
    rewrite Hpass.
    set (w1 := snd (showcase_pass text max_length min_length w)) in *.
    destruct ((len (sent_tokenize (join " " summaries)) =? 1)
              || (word_count (join " " summaries) <=? threshold)).
    { eexists. split; [exact Htrace | apply Hlevel]. }
    destruct (IH (join " " summaries) threshold w1) as (later & Hlater & Hall).
    eexists. split; [rewrite Hlater, Htrace, <- app_assoc; reflexivity|].
    apply Forall_app. split; [apply Hlevel | exact Hall].
Qed.

(** X8. In the showcase the caller's length settings do reach the model:
    every call of a run of [iterative_summarization] carries the given
    [max_length] and [min_length] and [early_stopping=True], nothing else,
    and its prompt is "summarize: " followed by a chunk of at least 50
    words.  The same [min_length] is the word threshold of the recursion. *)
Theorem showcase_lengths_reach_model (C : Capabilities) (fuel : nat) (text : string)
    (max_length min_length : Z) (w : World) :
  Showcase.iterative_summarization fuel text max_length min_length w
  = Showcase.recursive_summarize fuel text max_length min_length min_length w
  /\ exists calls,
       trace (snd (Showcase.iterative_summarization fuel text max_length min_length w))
       = trace w ++ calls
       /\ Forall (fun call =>
                    call_kwargs call = showcase_kwargs max_length min_length
                    /\ kwarg "max_length" (call_kwargs call) = Some (PyInt max_length)
                    /\ kwarg "min_length" (call_kwargs call) = Some (PyInt min_length)
                    /\ exists chunk,
                         call_prompt call = "summarize: " +:+ chunk
                         /\ 50 <= word_count chunk)
                 calls.
Proof.
  split; [reflexivity|]. unfold Showcase.iterative_summarization.
  apply showcase_calls_all. intros t summaries.
  pose proof (level_calls_kwargs "summarize: " (showcase_kwargs max_length min_length)
                (Showcase.chunk_sentences (sent_tokenize t) Showcase.default_max_words
                   Showcase.default_min_words) summaries) as Hkw.
  pose proof (level_calls_prompts "summarize: " (showcase_kwargs max_length min_length)
                (Showcase.chunk_sentences (sent_tokenize t) Showcase.default_max_words
                   Showcase.default_min_words) summaries) as Hprompts.
  rewrite Forall_forall in Hkw, Hprompts. apply Forall_forall. intros call Hcall.
  destruct (Hprompts call Hcall) as (chunk & Hin & Hprompt).
  rewrite (Hkw call Hcall). repeat split.
  exists chunk. split; [exact Hprompt|].
  now apply showcase_chunk_floor in Hin.
Qed.

(** * Basic cleaning *)

Lemma append_not_empty (a r : string) : r <> EmptyString -> a +:+ r <> EmptyString.
Proof. destruct a; [now rewrite append_nil | discriminate]. Qed.

Lemma rstrip_append_keep (a b : string) :
  rstrip b <> EmptyString -> rstrip (a +:+ b) = a +:+ rstrip b.
Proof.
  intros Hb. induction a as [|x a IH]; [reflexivity|].
  rewrite !append_cons. simpl. rewrite IH.
  pose proof (append_not_empty a (rstrip b) Hb) as Hne.
  now destruct (a +:+ rstrip b).
Qed.

Lemma rstrip_append_drop (a b : string) :
  rstrip b = EmptyString -> rstrip (a +:+ b) = rstrip a.
Proof.
  intros Hb. induction a as [|x a IH]; [now rewrite append_nil|].
  rewrite append_cons. simpl. now rewrite IH.
Qed.

Lemma rstrip_starts (c : ascii) (s : string) :
  isspace c = false -> exists r, rstrip (String c s) = String c r.
Proof.
  intros Hc. simpl. rewrite Hc. destruct (rstrip s); eauto.
Qed.

Lemma split_from_not_nil (s cur : string) :
  cur <> EmptyString -> split_from cur s <> [].
Proof.
  revert cur. induction s as [|c s IH]; intros cur Hcur; simpl.
  - now destruct cur.
  - destruct (isspace c); [now destruct cur|].
    apply IH. now apply append_not_empty.
Qed.

Lemma join_cons (x : string) (l : list string) :
  l <> [] -> join " " (x :: l) = x +:+ " " +:+ join " " l.
Proof. now destruct l. Qed.

(** Inside a word ([cur] ends the cleaned text so far without trailing white
    space) and just after a run of white space. *)
Lemma clean_text_from_word (s : string) :
  (forall cur, cur <> EmptyString -> rstrip cur = cur ->
     rstrip (cur +:+ collapse_whitespace false s) = join " " (split_from cur s))
  /\ (forall cur, cur <> EmptyString -> rstrip cur = cur ->
        rstrip (cur +:+ " " +:+ collapse_whitespace true s)
        = join " " (cur :: split_from EmptyString s)).
Proof.
  induction s as [|c s [IHword IHrun]]; split; intros cur Hne Hfix.
  - simpl. rewrite append_nil_r, Hfix. now destruct cur.
  - simpl. rewrite rstrip_append_drop by reflexivity. exact Hfix.
  - simpl. destruct (isspace c) eqn:Hc.
    + rewrite IHrun by assumption. now destruct cur.
    + change (cur +:+ String c (collapse_whitespace false s))
        with (cur +:+ (String c EmptyString +:+ collapse_whitespace false s)).
      rewrite <- append_assoc. apply IHword; [now apply append_not_empty|].
      rewrite rstrip_append_keep; simpl; now rewrite Hc.
  - simpl. destruct (isspace c) eqn:Hc.
    + now apply IHrun.
    + change (String c (collapse_whitespace false s))
        with (String c EmptyString +:+ collapse_whitespace false s).
      assert (Hinner : rstrip (String c EmptyString +:+ collapse_whitespace false s)
                       = join " " (split_from (String c EmptyString) s))
        by (apply IHword; [discriminate | simpl; now rewrite Hc]).
      destruct (rstrip_starts c (collapse_whitespace false s) Hc) as [r Hr].
      change (cur +:+ " " +:+ (String c EmptyString +:+ collapse_whitespace false s))
        with (cur +:+ (" " +:+ (String c EmptyString +:+ collapse_whitespace false s))).
      rewrite <- append_assoc, rstrip_append_keep
        by (change (String c EmptyString +:+ collapse_whitespace false s)
              with (String c (collapse_whitespace false s)); rewrite Hr; discriminate).
      rewrite Hinner, append_assoc, append_nil.
      pose proof (split_from_not_nil s (String c EmptyString)) as Hsome.
      destruct (split_from (String c EmptyString) s); [now destruct Hsome | reflexivity].
Qed.

Lemma collapse_whitespace_char (in_run : bool) (c : ascii) (s : string) :
  isspace c = false ->
  collapse_whitespace in_run (String c s)
  = String c EmptyString +:+ collapse_whitespace false s.
Proof. intros Hc. simpl. now rewrite Hc. Qed.

Lemma split_from_char (c : ascii) (s : string) :
  isspace c = false ->
  split_from EmptyString (String c s) = split_from (String c EmptyString) s.
Proof. intros Hc. simpl. now rewrite Hc. Qed.

Lemma clean_text_from_start (s : string) (in_run : bool) :
  lstrip (rstrip (collapse_whitespace in_run s)) = join " " (split_from EmptyString s).
Proof.
  revert in_run. induction s as [|c s IH]; intros in_run; [reflexivity|].
  destruct (isspace c) eqn:Hc.
  - simpl. rewrite Hc. destruct in_run; [apply IH|].
    rewrite <- (IH true). simpl.
    destruct (rstrip (collapse_whitespace true s)); reflexivity.
  - rewrite collapse_whitespace_char, split_from_char by exact Hc.
    rewrite <- (proj1 (clean_text_from_word s) (String c EmptyString))
      by (try discriminate; simpl; now rewrite Hc).
    destruct (rstrip_starts c (collapse_whitespace false s) Hc) as [r Hr].
    change (String c EmptyString +:+ collapse_whitespace false s)
      with (String c (collapse_whitespace false s)).
    rewrite Hr. simpl. now rewrite Hc.
Qed.

(** X9. [clean_text] is [" ".join(text.split())]: the words of the text in
    order, separated by single spaces, with no white space at either end. *)
Theorem clean_text_is_join_of_words (text : string) :
  Interface.clean_text text = join " " (split text).
Proof. apply clean_text_from_start. Qed.

Example clean_text_demo :
  Interface.clean_text "  Breaking:	 markets   fall
 again  " = "Breaking: markets fall again".
Proof. reflexivity. Qed.

Lemma flush_append (x u : string) :
  flush (x +:+ u) = match x +:+ u with EmptyString => [] | _ => [x +:+ u] end.
Proof. reflexivity. Qed.

Lemma split_from_no_space (u x : string) :
  no_space u = true -> split_from x u = flush (x +:+ u).
Proof.
  revert x. induction u as [|c u IH]; intros x Hu; simpl.
  - now rewrite append_nil_r.
  - simpl in Hu. apply andb_true_iff in Hu as [Hc Hu]. apply negb_true_iff in Hc.
    rewrite Hc, IH by exact Hu.
    now rewrite append_assoc.
Qed.

Lemma no_space_snoc (a : string) (c : ascii) :
  no_space a = true -> isspace c = false -> no_space (a +:+ String c EmptyString) = true.
Proof.
  intros Ha Hc. induction a as [|x a IH].
  - simpl. now rewrite Hc.
  - simpl in Ha. apply andb_true_iff in Ha as [Hx Ha].
    rewrite append_cons. simpl. now rewrite Hx, IH.
Qed.

(** The tokens of [split] are non-empty and free of white space. *)
Lemma split_from_words (s cur : string) :
  no_space cur = true ->
  Forall (fun word => no_space word = true /\ word <> EmptyString) (split_from cur s).
Proof.
  revert cur. induction s as [|c s IH]; intros cur Hcur; simpl.
  - destruct cur; repeat constructor; [exact Hcur | discriminate].
  - destruct (isspace c) eqn:Hc.
    + apply Forall_app. split; [|now apply IH].
      destruct cur; repeat constructor; [exact Hcur | discriminate].
    + apply IH. now apply no_space_snoc.
Qed.

(** Splitting a single-space join of tokens gives the tokens back. *)
Lemma split_join_words (l : list string) :
  Forall (fun word => no_space word = true /\ word <> EmptyString) l ->
  split (join " " l) = l.
Proof.
  induction 1 as [|x l [Hx Hne] _ IH]; [reflexivity|].
  assert (Hone : split x = [x]).
  { unfold split. rewrite split_from_no_space by exact Hx.
    rewrite append_nil. now destruct x. }
  destruct l as [|y l]; [exact Hone|].
  change (join " " (x :: y :: l)) with (x +:+ String " " (join " " (y :: l))).
  unfold split in *. rewrite split_from_sep by reflexivity.
  now rewrite Hone, IH.
Qed.

(** X10. Basic cleaning keeps the words: [clean_text(text).split()] equals
    [text.split()], so the word count that the summarizer compares with its
    threshold is unchanged, and cleaning a cleaned text changes nothing. *)
Theorem clean_text_keeps_words (text : string) :
  split (Interface.clean_text text) = split text
  /\ word_count (Interface.clean_text text) = word_count text
  /\ Interface.clean_text (Interface.clean_text text) = Interface.clean_text text.
Proof.
  assert (Hjoin : forall t, Interface.clean_text t = join " " (split t))
    by (intros t; apply clean_text_from_start).
  assert (Hsplit : split (Interface.clean_text text) = split text).
  { rewrite Hjoin. apply split_join_words. now apply split_from_words. }
  split; [exact Hsplit|]. split.
  - unfold word_count. now rewrite Hsplit.
  - now rewrite (Hjoin (Interface.clean_text text)), Hsplit, Hjoin.
Qed.

(** * The ingestion pipeline *)

(** What it takes for an article to be kept. *)
Lemma process_article_keep (C : Capabilities) (P : Stages) (fuel : nat) (article : Article)
    (seen : Seen) (w : World) (updated : Article) (seen' : Seen) (w' : World) :
  Pipeline.process_article fuel article seen w = ((Returned (Keep updated), seen'), w') ->
  exists raw_title raw_text summary,
    article !! "title" = Some (FStr raw_title)
    /\ article !! "text" = Some (FStr raw_text)
    /\ truthy (strip (clean_junk_text raw_text)) = true
    /\ ~ (lower (strip raw_title) ∈ seen_titles seen
          /\ lower (clean_junk_text raw_text) ∈ seen_texts seen)
    /\ seen' = mkSeen ({[ lower (strip raw_title) ]} ∪ seen_titles seen)
                      ({[ lower (clean_junk_text raw_text) ]} ∪ seen_texts seen)
    /\ is_strictly_english (clean_junk_text raw_text) = true
    /\ Summarizer.iterative_summarization fuel (clean_junk_text raw_text)
         Summarizer.default_iterative_threshold w = (Some summary, w')
    /\ truthy (strip summary) = true
    /\ updated
       = <[ "category" := FStr (predict (strip raw_title +:+ " " +:+ summary)) ]>
           (<[ "summary" := FStr summary ]>
              (<[ "text" := FStr (clean_junk_text raw_text) ]> article)).
Proof.
  unfold Pipeline.process_article.
  destruct (article !! "title") as [[raw_title|]|] eqn:Htitle; try discriminate.
  destruct (article !! "text") as [[raw_text|]|] eqn:Htext; try discriminate.
  destruct (negb (truthy (clean_junk_text raw_text))
            || negb (truthy (strip (clean_junk_text raw_text)))) eqn:Hblank;
    [discriminate|].
  apply orb_false_iff in Hblank as [_ Hblank]. apply negb_false_iff in Hblank.
  destruct (bool_decide (lower (strip raw_title) ∈ seen_titles seen)
            && bool_decide (lower (clean_junk_text raw_text) ∈ seen_texts seen)) eqn:Hdup;
    [discriminate|].
  destruct (is_strictly_english (clean_junk_text raw_text)) eqn:Heng; [|discriminate].
  simpl negb. cbv iota.
  destruct (Summarizer.iterative_summarization fuel (clean_junk_text raw_text)
              Summarizer.default_iterative_threshold w) as [[summary|] w1] eqn:Hsum;
    [|discriminate].
  destruct (negb (truthy summary) || negb (truthy (strip summary))) eqn:Hempty;
    [discriminate|].
  apply orb_false_iff in Hempty as [_ Hempty]. apply negb_false_iff in Hempty.
  intros [= <- <- <-]. exists raw_title, raw_text, summary.
  repeat split; try assumption; try reflexivity.
  intros [Ht Hx]. apply andb_false_iff in Hdup as [Hd | Hd];
    apply bool_decide_eq_false in Hd; contradiction.
Qed.

(** Whenever an iteration ends normally, the article is well formed and,
    unless its cleaned text is blank, its key is in the sets afterwards. *)
Lemma process_article_returned (C : Capabilities) (P : Stages) (fuel : nat)
    (article : Article) (seen : Seen) (w : World) (step : Step) (seen' : Seen) (w' : World) :
  Pipeline.process_article fuel article seen w = ((Returned step, seen'), w') ->
  exists raw_title raw_text,
    article !! "title" = Some (FStr raw_title)
    /\ article !! "text" = Some (FStr raw_text)
    /\ (negb (truthy (clean_junk_text raw_text))
         || negb (truthy (strip (clean_junk_text raw_text))) = true
        \/ (lower (strip raw_title) ∈ seen_titles seen'
            /\ lower (clean_junk_text raw_text) ∈ seen_texts seen')).
Proof.
  unfold Pipeline.process_article.
  destruct (article !! "title") as [[raw_title|]|] eqn:Htitle; try discriminate.
  destruct (article !! "text") as [[raw_text|]|] eqn:Htext; try discriminate.
  intros Hrun. exists raw_title, raw_text. split; [reflexivity|]. split; [reflexivity|].
  destruct (negb (truthy (clean_junk_text raw_text))
            || negb (truthy (strip (clean_junk_text raw_text)))); [now left|].
  right.
  destruct (bool_decide (lower (strip raw_title) ∈ seen_titles seen)
            && bool_decide (lower (clean_junk_text raw_text) ∈ seen_texts seen)) eqn:Hdup.
  { injection Hrun as _ <- _. apply andb_true_iff in Hdup as [Ht Hx].
    apply bool_decide_eq_true in Ht, Hx. now split. }
  assert (Hin : lower (strip raw_title)
                ∈ seen_titles (mkSeen ({[ lower (strip raw_title) ]} ∪ seen_titles seen)
                                      ({[ lower (clean_junk_text raw_text) ]} ∪ seen_texts seen))
                /\ lower (clean_junk_text raw_text)
                   ∈ seen_texts (mkSeen ({[ lower (strip raw_title) ]} ∪ seen_titles seen)
                                        ({[ lower (clean_junk_text raw_text) ]}
                                         ∪ seen_texts seen)))
    by (simpl; split; set_solver).
  destruct (is_strictly_english (clean_junk_text raw_text)); simpl negb in Hrun; cbv iota in Hrun.
  2: { injection Hrun as _ <- _. exact Hin. }
  destruct (Summarizer.iterative_summarization fuel (clean_junk_text raw_text)
              Summarizer.default_iterative_threshold w) as [[summary|] w1];
    [|discriminate].
  destruct (negb (truthy summary) || negb (truthy (strip summary)));
    injection Hrun as _ <- _; exact Hin.
Qed.

(** The sets only grow, however the iteration ends. *)
Lemma process_article_seen_grows (C : Capabilities) (P : Stages) (fuel : nat)
    (article : Article) (seen : Seen) (w : World) :
  seen_titles seen ⊆ seen_titles (snd (fst (Pipeline.process_article fuel article seen w)))
  /\ seen_texts seen ⊆ seen_texts (snd (fst (Pipeline.process_article fuel article seen w))).
Proof.
  unfold Pipeline.process_article.
  destruct (article !! "title") as [[raw_title|]|]; try (simpl; split; set_solver).
  destruct (article !! "text") as [[raw_text|]|]; try (simpl; split; set_solver).
  destruct (negb (truthy (clean_junk_text raw_text))
            || negb (truthy (strip (clean_junk_text raw_text)))); [simpl; split; set_solver|].
  destruct (bool_decide (lower (strip raw_title) ∈ seen_titles seen)
            && bool_decide (lower (clean_junk_text raw_text) ∈ seen_texts seen));
    [simpl; split; set_solver|].
  destruct (negb (is_strictly_english (clean_junk_text raw_text)));
    [simpl; split; set_solver|].
  destruct (Summarizer.iterative_summarization fuel (clean_junk_text raw_text)
              Summarizer.default_iterative_threshold w) as [[summary|] w1];
    [|simpl; split; set_solver].
  destruct (negb (truthy summary) || negb (truthy (strip summary)));
    simpl; split; set_solver.
Qed.

(** A property of (articles consumed, articles kept, sets) that every
    normally ending iteration preserves holds when the loop returns. *)
Lemma process_loop_invariant (C : Capabilities) (P : Stages) (fuel : nat)
    (I : list Article -> list Article -> Seen -> Prop) :
  (forall consumed kept seen article w step seen' w',
     I consumed kept seen ->
     Pipeline.process_article fuel article seen w = ((Returned step, seen'), w') ->
     I (consumed ++ [article])
       (match step with Skip => kept | Keep updated => kept ++ [updated] end) seen') ->
  forall articles consumed kept seen w out seen' w',
    I consumed kept seen ->
    Pipeline.process_loop fuel articles kept seen w = ((Returned out, seen'), w') ->
    I (consumed ++ articles) out seen'.
Proof.
  intros Hstep articles.
  induction articles as [|article rest IH]; intros consumed kept seen w out seen' w' Hinv.
  - simpl. intros [= <- <- <-]. now rewrite app_nil_r.
  - simpl.
    destruct (Pipeline.process_article fuel article seen w) as [[step seen1] w1] eqn:Hone.
    replace (consumed ++ article :: rest) with ((consumed ++ [article]) ++ rest)
      by now rewrite <- app_assoc.
    destruct step as [[|updated]| |]; try discriminate.
    + apply IH. exact (Hstep _ _ _ _ _ Skip _ _ Hinv Hone).
    + apply IH. exact (Hstep _ _ _ _ _ (Keep updated) _ _ Hinv Hone).
Qed.

Lemma kept_article_fields (P : Stages) (article : Article) (raw_title raw_text : string)
    (text summary category : string) :
  article !! "title" = Some (FStr raw_title) ->
  let updated := <[ "category" := FStr category ]>
                   (<[ "summary" := FStr summary ]> (<[ "text" := FStr text ]> article)) in
  updated !! "title" = Some (FStr raw_title)
  /\ updated !! "text" = Some (FStr text)
  /\ updated !! "summary" = Some (FStr summary)
  /\ updated !! "category" = Some (FStr category).
Proof.
  intros Htitle updated. unfold updated. repeat split.
  - rewrite !lookup_insert_ne by discriminate. exact Htitle.
  - rewrite !lookup_insert_ne by discriminate. apply lookup_insert_eq.
  - rewrite lookup_insert_ne by discriminate. apply lookup_insert_eq.
  - apply lookup_insert_eq.
Qed.

Lemma process_article_keep_ready (C : Capabilities) (P : Stages) (fuel : nat)
    (article : Article) (seen : Seen) (w : World) (updated : Article) (seen' : Seen)
    (w' : World) :
  Pipeline.process_article fuel article seen w = ((Returned (Keep updated), seen'), w') ->
  ready updated.
Proof.
  intros Hkeep. apply process_article_keep in Hkeep
    as (raw_title & raw_text & summary & Htitle & _ & Hfull & _ & _ & Heng & _ & Hsum & ->).
  destruct (kept_article_fields P article raw_title raw_text (clean_junk_text raw_text)
              summary (predict (strip raw_title +:+ " " +:+ summary)) Htitle)
    as (H1 & H2 & H3 & H4).
  exists raw_title, (clean_junk_text raw_text), summary. auto 10.
Qed.

Lemma process_articles_ready (C : Capabilities) (P : Stages) (fuel : nat)
    (articles : list Article) (seen : Seen) (w : World) (out : list Article)
    (seen' : Seen) (w' : World) :
  Pipeline.process_articles fuel articles seen w = ((Returned out, seen'), w') ->
  Forall ready out.
Proof.
  intros Hrun.
  apply (process_loop_invariant C P fuel (fun _ kept _ => Forall ready kept))
    with (consumed := []) in Hrun; [exact Hrun | | constructor].
  intros consumed kept seen0 article w0 [|updated] seen1 w1 Hinv Hone; [exact Hinv|].
  apply Forall_app. split; [exact Hinv|]. apply Forall_singleton.
  eapply process_article_keep_ready, Hone.
Qed.

(** X11. Every article that [process_articles] returns has a text that is
    not blank and passed the English test, a summary that is not blank, and
    the category predicted from its stripped title, a space and the summary;
    its title is a string. *)
Theorem processed_articles_are_ready (C : Capabilities) (P : Stages) (fuel : nat)
    (articles : list Article) (seen : Seen) (w : World) (out : list Article)
    (seen' : Seen) (w' : World) :
  Pipeline.process_articles fuel articles seen w = ((Returned out, seen'), w') ->
  Forall ready out.
Proof. apply process_articles_ready. Qed.

Lemma run_components {A B D : Type} (run : A * B * D) (a : A) :
  fst (fst run) = a -> run = ((a, snd (fst run)), snd run).
Proof. destruct run as [[a0 b] d]. simpl. now intros ->. Qed.

Lemma sample_run_result :
  sample_run = ((Returned two_processed, snd (fst sample_run)), snd sample_run).
Proof. apply run_components. vm_compute. reflexivity. Qed.

(** Of three articles, the first and the third are kept. *)
Lemma processed_articles_are_ready_witness : Forall (@ready mock_stages) two_processed.
Proof.
  exact (processed_articles_are_ready (fixed_reply "unused") mock_stages 1 three_articles
           no_seen (fixed_start "unused") two_processed _ _ sample_run_result).
Defined.

Lemma fill_batch_ready (P : Stages) (news_list batch : list Article) :
  Forall ready news_list ->
  Pipeline.fill_batch news_list batch = Returned (batch ++ news_list).
Proof.
  intros Hall. revert batch.
  induction Hall as [|article rest Hready _ IH]; intros batch; simpl.
  - now rewrite app_nil_r.
  - destruct Hready as (title & text & summary & _ & Htext & Hfull & _ & Hsum & Hsome & _).
    unfold Pipeline.blank_field, get_or_empty. rewrite Htext, Hsum, Hfull, Hsome. simpl.
    rewrite IH. now rewrite <- app_assoc.
Qed.

(** X12. What [process_articles] returns passes the final check of
    [upload_to_firestore] unharmed: no exception, no article left out, the
    order kept; an empty result opens no batch. *)
Theorem upload_takes_all_processed (C : Capabilities) (P : Stages) (fuel : nat)
    (articles : list Article) (seen : Seen) (w : World) (out : list Article)
    (seen' : Seen) (w' : World) :
  Pipeline.process_articles fuel articles seen w = ((Returned out, seen'), w') ->
  Pipeline.upload_to_firestore out
  = Returned (match out with [] => None | _ :: _ => Some out end).
Proof.
  intros Hrun. apply process_articles_ready in Hrun.
  unfold Pipeline.upload_to_firestore. destruct out as [|o out]; [reflexivity|].
  now rewrite (fill_batch_ready P _ [] Hrun).
Qed.

Lemma upload_takes_all_processed_witness :
  Pipeline.upload_to_firestore two_processed = Returned (Some two_processed).
Proof.
  exact (upload_takes_all_processed (fixed_reply "unused") mock_stages 1 three_articles
           no_seen (fixed_start "unused") two_processed _ _ sample_run_result).
Defined.

Lemma kept_article_key (P : Stages) (article : Article) (raw_title : string)
    (text summary category : string) :
  article !! "title" = Some (FStr raw_title) ->
  article_key (<[ "category" := FStr category ]>
                 (<[ "summary" := FStr summary ]> (<[ "text" := FStr text ]> article)))
  = (lower (strip raw_title), lower text).
Proof.
  intros Htitle.
  destruct (kept_article_fields P article raw_title text text summary category Htitle)
    as (H1 & H2 & _).
  unfold article_key, field_text. now rewrite H1, H2.
Qed.

(** X13. [process_articles] never returns the same article twice: the keys
    (stripped title and cleaned text, both lower-cased) of the returned
    articles are pairwise different, none of them had both components in the
    sets before the call, all have both in the sets after it, and the sets
    only grow. *)
Theorem processed_articles_are_distinct (C : Capabilities) (P : Stages) (fuel : nat)
    (articles : list Article) (seen : Seen) (w : World) (out : list Article)
    (seen' : Seen) (w' : World) :
  Pipeline.process_articles fuel articles seen w = ((Returned out, seen'), w') ->
  NoDup (map article_key out)
  /\ Forall (fun o => ~ ((article_key o).1 ∈ seen_titles seen
                         /\ (article_key o).2 ∈ seen_texts seen)) out
  /\ Forall (fun o => (article_key o).1 ∈ seen_titles seen'
                      /\ (article_key o).2 ∈ seen_texts seen') out
  /\ seen_titles seen ⊆ seen_titles seen'
  /\ seen_texts seen ⊆ seen_texts seen'.
Proof.
  intros Hrun.
  apply (process_loop_invariant C P fuel
           (fun _ kept now =>
              NoDup (map article_key kept)
              /\ Forall (fun o => ~ ((article_key o).1 ∈ seen_titles seen
                                     /\ (article_key o).2 ∈ seen_texts seen)) kept
              /\ Forall (fun o => (article_key o).1 ∈ seen_titles now
                                  /\ (article_key o).2 ∈ seen_texts now) kept
              /\ seen_titles seen ⊆ seen_titles now
              /\ seen_texts seen ⊆ seen_texts now))
    with (consumed := []) in Hrun; [exact Hrun | | ].
  - intros consumed kept now article w0 step now' w1 (Hnd & Hnew & Hin & Ht & Hx) Hone.
    pose proof (process_article_seen_grows C P fuel article now w0) as [Hgt Hgx].
    rewrite Hone in Hgt, Hgx. simpl in Hgt, Hgx.
    assert (Hin' : Forall (fun o => (article_key o).1 ∈ seen_titles now'
                                    /\ (article_key o).2 ∈ seen_texts now') kept).
    { eapply Forall_impl; [exact Hin|]. intros o [Ho1 Ho2]. split; set_solver. }
    destruct step as [|updated].
    { split; [exact Hnd|]. split; [exact Hnew|]. split; [exact Hin'|].
      split; etransitivity; eassumption. }
    apply process_article_keep in Hone
      as (raw_title & raw_text & summary & Htitle & _ & _ & Hfresh & -> & _ & _ & _ & ->).
    rewrite map_app, !Forall_app, !Forall_singleton.
    rewrite (kept_article_key P article raw_title (clean_junk_text raw_text) summary _ Htitle).
    cbn [fst snd seen_titles seen_texts] in *.
    split; [|split; [|split; [|split]]].
    + apply NoDup_app. split; [exact Hnd|]. split; [|apply NoDup_singleton].
      intros key Hkey Hsame. apply list_elem_of_singleton in Hsame as ->.
      apply list_elem_of_fmap in Hkey as (o & Ho & Hmem).
      rewrite Forall_forall in Hin. destruct (Hin o Hmem) as [Ho1 Ho2].
      rewrite <- Ho in Ho1, Ho2.
      rewrite ?(kept_article_key P article raw_title (clean_junk_text raw_text) summary _
                  Htitle) in Ho1, Ho2.
      cbn [fst snd] in Ho1, Ho2. apply Hfresh. now split.
    + split; [exact Hnew|]. intros [H1 H2]. apply Hfresh. split; [now apply Ht | now apply Hx].
    + split; [exact Hin'|]. split; apply elem_of_union_l, elem_of_singleton; reflexivity.
    + etransitivity; eassumption.
    + etransitivity; eassumption.
  - split; [simpl; apply NoDup_nil_2|]. split; [constructor|]. split; [constructor|].
    split; reflexivity.
Qed.

Lemma processed_articles_are_distinct_witness :
  NoDup (map article_key two_processed).
Proof.
  exact (proj1 (processed_articles_are_distinct (fixed_reply "unused") mock_stages 1
                  three_articles no_seen (fixed_start "unused") two_processed _ _
                  sample_run_result)).
Defined.

(** X14. The articles returned are updated copies of some of the input
    articles, in input order: each has its text replaced by the cleaned
    text, a summary and a category added, and every other key (title, date,
    url) untouched. *)
Theorem processed_articles_come_from_input (C : Capabilities) (P : Stages) (fuel : nat)
    (articles : list Article) (seen : Seen) (w : World) (out : list Article)
    (seen' : Seen) (w' : World) :
  Pipeline.process_articles fuel articles seen w = ((Returned out, seen'), w') ->
  exists kept, kept `sublist_of` articles /\ Forall2 updated_from kept out.
Proof.
  intros Hrun.
  apply (process_loop_invariant C P fuel
           (fun consumed kept _ =>
              exists sub, sub `sublist_of` consumed /\ Forall2 updated_from sub kept))
    with (consumed := []) in Hrun; [exact Hrun | | ].
  - intros consumed kept now article w0 step now' w1 (sub & Hsub & Hall) Hone.
    destruct step as [|updated].
    { exists sub. split; [now apply sublist_inserts_r | exact Hall]. }
    apply process_article_keep in Hone
      as (raw_title & raw_text & summary & Htitle & Htext & _ & _ & _ & _ & _ & _ & ->).
    exists (sub ++ [article]). split; [now apply sublist_app|].
    apply Forall2_app; [exact Hall|]. constructor; [|constructor].
    exists summary. unfold field_text. now rewrite Htitle, Htext.
  - exists []. split; constructor.
Qed.

Lemma processed_articles_come_from_input_witness :
  exists kept, kept `sublist_of` three_articles /\ Forall2 (@updated_from mock_stages) kept two_processed.
Proof.
  exact (processed_articles_come_from_input (fixed_reply "unused") mock_stages 1
           three_articles no_seen (fixed_start "unused") two_processed _ _
           sample_run_result).
Defined.

Lemma process_article_no_raise (C : Capabilities) (P : Stages) (fuel : nat)
    (article : Article) (seen : Seen) (w : World) (e : PyError) :
  well_formed article ->
  fst (fst (Pipeline.process_article fuel article seen w)) <> Raised e.
Proof.
  intros (title & text & Htitle & Htext). unfold Pipeline.process_article.
  rewrite Htitle, Htext.
  destruct (negb (truthy (clean_junk_text text))
            || negb (truthy (strip (clean_junk_text text)))); [discriminate|].
  destruct (bool_decide (lower (strip title) ∈ seen_titles seen)
            && bool_decide (lower (clean_junk_text text) ∈ seen_texts seen));
    [discriminate|].
  destruct (negb (is_strictly_english (clean_junk_text text))); [discriminate|].
  destruct (Summarizer.iterative_summarization fuel (clean_junk_text text)
              Summarizer.default_iterative_threshold w) as [[summary|] w1];
    [|discriminate].
  destruct (negb (truthy summary) || negb (truthy (strip summary))); discriminate.
Qed.

Lemma process_article_malformed (C : Capabilities) (P : Stages) (fuel : nat)
    (article : Article) (seen : Seen) (w : World) :
  ~ well_formed article ->
  exists e, Pipeline.process_article fuel article seen w = ((Raised e, seen), w).
Proof.
  intros Hbad. unfold Pipeline.process_article.
  destruct (article !! "title") as [[title|]|] eqn:Htitle; eauto.
  destruct (article !! "text") as [[text|]|] eqn:Htext; eauto.
  destruct Hbad. now exists title, text.
Qed.

Lemma process_loop_no_raise (C : Capabilities) (P : Stages) (fuel : nat)
    (articles kept : list Article) (seen : Seen) (w : World) (e : PyError) :
  Forall well_formed articles ->
  fst (fst (Pipeline.process_loop fuel articles kept seen w)) <> Raised e.
Proof.
  intros Hall. revert seen w kept.
  induction Hall as [|article rest Hgood _ IH]; intros seen w kept; [discriminate|].
  simpl.
  pose proof (process_article_no_raise C P fuel article seen w e Hgood) as Hone.
  destruct (Pipeline.process_article fuel article seen w) as [[step seen1] w1].
  destruct step as [[|updated]|e1|]; simpl in *; try apply IH; congruence.
Qed.

Lemma process_article_returns (C : Capabilities) (P : Stages) (fuel : nat)
    (article : Article) (seen : Seen) (w : World) :
  well_formed article ->
  summary_returns fuel article ->
  exists step, fst (fst (Pipeline.process_article fuel article seen w)) = Returned step.
Proof.
  intros (title & text & Htitle & Htext) Hsum. specialize (Hsum w).
  unfold field_text in Hsum. rewrite Htext in Hsum. destruct Hsum as (summary & w1 & Hsum).
  unfold Pipeline.process_article. rewrite Htitle, Htext.
  destruct (negb (truthy (clean_junk_text text))
            || negb (truthy (strip (clean_junk_text text)))); [simpl; eauto|].
  destruct (bool_decide (lower (strip title) ∈ seen_titles seen)
            && bool_decide (lower (clean_junk_text text) ∈ seen_texts seen));
    [simpl; eauto|].
  destruct (negb (is_strictly_english (clean_junk_text text))); [simpl; eauto|].
  rewrite Hsum.
  destruct (negb (truthy summary) || negb (truthy (strip summary))); simpl; eauto.
Qed.

Lemma process_loop_returns (C : Capabilities) (P : Stages) (fuel : nat)
    (articles kept : list Article) (seen : Seen) (w : World) :
  Forall well_formed articles ->
  Forall (summary_returns fuel) articles ->
  exists out, fst (fst (Pipeline.process_loop fuel articles kept seen w)) = Returned out.
Proof.
  intros Hall. revert seen w kept.
  induction Hall as [|article rest Hgood _ IH]; intros seen w kept Hsum;
    [simpl; eauto|].
  apply Forall_cons in Hsum as [Hone Hrest]. simpl.
  destruct (process_article_returns C P fuel article seen w Hgood Hone) as [step Hstep].
  destruct (Pipeline.process_article fuel article seen w) as [[step1 seen1] w1].
  simpl in Hstep. subst step1. destruct step as [|updated]; now apply IH.
Qed.

(** X15. How [process_articles] can end.  On a batch in which every article
    holds a string under "title" and under "text", the call either returns a
    list or a summarization has not returned within the fuel (a recursion
    that does not stop ends in Python's RecursionError); it raises no
    KeyError, AttributeError or TypeError.  If moreover the summarization of
    every article's cleaned text returns, the call returns a list.  An
    article at the head of the batch that lacks one of the two strings makes
    the call raise at once, with the sets and the model untouched.
    Exceptions raised inside the model, the cleaner or the categorizer are
    not part of the model. *)
Theorem field_errors_only_from_malformed_articles (C : Capabilities) (P : Stages)
    (fuel : nat) (seen : Seen) (w : World) :
  (forall articles,
     Forall well_formed articles ->
     (exists out, fst (fst (Pipeline.process_articles fuel articles seen w)) = Returned out)
     \/ fst (fst (Pipeline.process_articles fuel articles seen w)) = OutOfFuel)
  /\ (forall articles,
        Forall well_formed articles ->
        Forall (summary_returns fuel) articles ->
        exists out, fst (fst (Pipeline.process_articles fuel articles seen w)) = Returned out)
  /\ (forall article rest,
        ~ well_formed article ->
        exists e,
          Pipeline.process_articles fuel (article :: rest) seen w = ((Raised e, seen), w)).
Proof.
  split; [|split].
  - intros articles Hall. unfold Pipeline.process_articles.
    pose proof (fun e => process_loop_no_raise C P fuel articles [] seen w e Hall) as Hno.
    destruct (fst (fst (Pipeline.process_loop fuel articles [] seen w))) as [out|e|];
      [left; eauto | destruct (Hno e eq_refl) | now right].
  - intros articles Hall Hsum. now apply process_loop_returns.
  - intros article rest Hbad. unfold Pipeline.process_articles. simpl.
    destruct (process_article_malformed C P fuel article seen w Hbad) as [e ->].
    now exists e.
Qed.

(** The three sample articles are well formed and short, so their
    summarization returns at once; an article whose text is [None] raises. *)
Lemma field_errors_only_from_malformed_articles_witness :
  (exists out, fst (fst sample_run) = Returned out)
  /\ exists e,
       @Pipeline.process_articles (fixed_reply "unused") mock_stages 1
         [ {[ "title" := FStr "No description"; "text" := FNone ]} ] no_seen
         (fixed_start "unused")
       = ((Raised e, no_seen), fixed_start "unused").
Proof.
  destruct (field_errors_only_from_malformed_articles (fixed_reply "unused") mock_stages 1
              no_seen (fixed_start "unused")) as (_ & Hgood & Hbad).
  split.
  - apply Hgood.
    + repeat constructor; eexists _, _; split; reflexivity.
    + repeat constructor; intros w0; eexists _, _; reflexivity.
  - apply Hbad. intros (title & text & _ & Htext). vm_compute in Htext. discriminate.
Defined.

Lemma settled_grows (P : Stages) (seen seen' : Seen) (article : Article) :
  seen_titles seen ⊆ seen_titles seen' ->
  seen_texts seen ⊆ seen_texts seen' ->
  settled seen article -> settled seen' article.
Proof.
  intros Ht Hx (raw_title & raw_text & Htitle & Htext & Hcase).
  exists raw_title, raw_text. split; [exact Htitle|]. split; [exact Htext|].
  destruct Hcase as [Hblank | [H1 H2]]; [now left | right].
  split; [now apply Ht | now apply Hx].
Qed.

Lemma process_article_settled (C : Capabilities) (P : Stages) (fuel : nat)
    (article : Article) (seen : Seen) (w : World) :
  settled seen article ->
  Pipeline.process_article fuel article seen w = ((Returned Skip, seen), w).
Proof.
  intros (raw_title & raw_text & Htitle & Htext & Hcase).
  unfold Pipeline.process_article. rewrite Htitle, Htext.
  destruct (negb (truthy (clean_junk_text raw_text))
            || negb (truthy (strip (clean_junk_text raw_text)))); [reflexivity|].
  destruct Hcase as [Hblank | [H1 H2]]; [discriminate|].
  now rewrite !bool_decide_eq_true_2 by assumption.
Qed.

Lemma process_loop_settled (C : Capabilities) (P : Stages) (fuel : nat)
    (articles kept : list Article) (seen : Seen) (w : World) :
  Forall (settled seen) articles ->
  Pipeline.process_loop fuel articles kept seen w = ((Returned kept, seen), w).
Proof.
  induction 1 as [|article rest Hone _ IH]; [reflexivity|].
  simpl. now rewrite (process_article_settled C P fuel article seen w Hone).
Qed.

(** X16. Processing a batch a second time does nothing.  After a call of
    [process_articles] that returned, a call on articles with the same
    contents and the sets it left returns the empty list, adds nothing to
    the sets and does not call the model. *)
Theorem second_pass_keeps_nothing (C : Capabilities) (P : Stages) (fuel : nat)
    (articles : list Article) (seen : Seen) (w : World) (out : list Article)
    (seen' : Seen) (w' : World) :
  Pipeline.process_articles fuel articles seen w = ((Returned out, seen'), w') ->
  forall w2, Pipeline.process_articles fuel articles seen' w2 = ((Returned [], seen'), w2).
Proof.
  intros Hrun w2. apply process_loop_settled.
  apply (process_loop_invariant C P fuel (fun consumed _ now => Forall (settled now) consumed))
    with (consumed := []) in Hrun; [exact Hrun | | constructor].
  intros consumed kept now article w0 step now' w1 Hinv Hone.
  pose proof (process_article_seen_grows C P fuel article now w0) as [Hgt Hgx].
  rewrite Hone in Hgt, Hgx. cbn [fst snd] in Hgt, Hgx.
  apply Forall_app. split.
  - eapply Forall_impl; [exact Hinv|]. intros a. now apply settled_grows.
  - apply Forall_singleton. apply process_article_returned in Hone. exact Hone.
Qed.

Lemma second_pass_keeps_nothing_witness :
  @Pipeline.process_articles (fixed_reply "unused") mock_stages 1 three_articles
    (snd (fst sample_run)) (fixed_start "unused")
  = ((Returned [], snd (fst sample_run)), fixed_start "unused").
Proof.
  exact (second_pass_keeps_nothing (fixed_reply "unused") mock_stages 1 three_articles
           no_seen (fixed_start "unused") two_processed _ _ sample_run_result
           (fixed_start "unused")).
Defined.

(** * The news feed *)

Lemma keyword_in_returned (kw : string) (article : Article) (key : string) (b : bool) :
  App.keyword_in kw article key = Returned b ->
  b = contains kw (lower (field_text article key)).
Proof.
  unfold App.keyword_in, get_or_empty, field_text.
  destruct (article !! key) as [[s|]|]; [| discriminate |]; now intros [= <-].
Qed.

Lemma matches_keyword_returned (kw : string) (article : Article) (b : bool) :
  App.matches_keyword kw article = Returned b ->
  b = true <-> mentions kw article.
Proof.
  unfold App.matches_keyword, mentions.
  destruct (App.keyword_in kw article "title") as [[|]| |] eqn:Htitle; try discriminate.
  - intros [= <-]. apply keyword_in_returned in Htitle. split; [now left | reflexivity].
  - intros Hsum. apply keyword_in_returned in Htitle, Hsum. rewrite <- Htitle, <- Hsum.
    split; [now right | now intros [? | ?]].
Qed.

(** The comprehension keeps, in order, exactly the articles that mention
    the keyword. *)
Lemma filter_keyword_returned (kw : string) (results filtered : list Article) :
  App.filter_keyword kw results = Returned filtered ->
  filtered `sublist_of` results
  /\ Forall (mentions kw) filtered
  /\ (forall article, article ∈ results -> mentions kw article -> article ∈ filtered).
Proof.
  revert filtered. induction results as [|a rest IH]; intros filtered; simpl.
  - intros [= <-]. split; [constructor|]. split; [constructor|]. now intros article Hin.
  - destruct (App.matches_keyword kw a) as [keep| |] eqn:Hmatch; try discriminate.
    apply matches_keyword_returned in Hmatch.
    destruct (App.filter_keyword kw rest) as [tail| |]; try discriminate.
    destruct (IH tail eq_refl) as (Hsub & Hall & Hcomplete).
    intros [= <-]. destruct keep.
    + split; [now constructor|]. split; [constructor; [now apply Hmatch | exact Hall]|].
      intros article Hin Hm. apply elem_of_cons in Hin as [-> | Hin];
        [constructor | constructor; now apply Hcomplete].
    + split; [now constructor|]. split; [exact Hall|].
      intros article Hin Hm. apply elem_of_cons in Hin as [-> | Hin];
        [|now apply Hcomplete].
      apply Hmatch in Hm. discriminate.
Qed.

(** One iteration of the loop, told by the feed title of its article. *)
Lemma unique_loop_cons (a : Article) (rest unique_results : list Article)
    (seen_titles : gset string) (out : list Article) :
  App.unique_loop (a :: rest) unique_results seen_titles = Returned out ->
  (truthy (feed_title a) = true
   /\ ~ (feed_title a ∈ seen_titles)
   /\ App.unique_loop rest (unique_results ++ [a]) ({[ feed_title a ]} ∪ seen_titles)
      = Returned out)
  \/ ((truthy (feed_title a) = false \/ feed_title a ∈ seen_titles)
      /\ App.unique_loop rest unique_results seen_titles = Returned out).
Proof.
  simpl. unfold get_or_empty, feed_title, field_text.
  destruct (a !! "title") as [[raw|]|]; [| discriminate |].
  - destruct (truthy (strip raw)) eqn:Hfull; [|intros Hrun; right; auto].
    destruct (bool_decide (strip raw ∈ seen_titles)) eqn:Hdup; cbn [andb negb]; intros Hrun.
    + right. apply bool_decide_eq_true in Hdup. auto.
    + left. apply bool_decide_eq_false in Hdup. auto.
  - change (strip EmptyString) with EmptyString. cbn [truthy andb].
    intros Hrun. right. auto.
Qed.

(** The loop appends to the unique articles a subsequence of the results,
    keeps titles non-empty and pairwise different, and leaves no non-empty
    title of the results without a representative. *)
Lemma unique_loop_returned (results unique_results : list Article)
    (seen_titles : gset string) (out : list Article) :
  App.unique_loop results unique_results seen_titles = Returned out ->
  (forall t, t ∈ seen_titles <-> t ∈ map feed_title unique_results) ->
  NoDup (map feed_title unique_results) ->
  Forall (fun o => truthy (feed_title o) = true) unique_results ->
  exists added,
    out = unique_results ++ added
    /\ added `sublist_of` results
    /\ NoDup (map feed_title out)
    /\ Forall (fun o => truthy (feed_title o) = true) out
    /\ (forall article, article ∈ results -> truthy (feed_title article) = true ->
          feed_title article ∈ map feed_title out).
Proof.
  revert unique_results seen_titles.
  induction results as [|a rest IH]; intros unique_results seen_titles Hrun Hseen Hnd Hfull.
  - simpl in Hrun. injection Hrun as <-. exists []. rewrite app_nil_r.
    split; [reflexivity|]. split; [constructor|]. split; [exact Hnd|]. split; [exact Hfull|].
    intros article Hin. inversion Hin.
  - apply unique_loop_cons in Hrun as [(Hne & Hnew & Hrun) | (Hskip & Hrun)].
    + destruct (IH _ _ Hrun) as (added & -> & Hsub & Hnd' & Hfull' & Hcomplete).
      * intros t. rewrite map_app, elem_of_app, elem_of_union, elem_of_singleton.
        simpl. rewrite list_elem_of_singleton, Hseen. tauto.
      * rewrite map_app. apply NoDup_app. split; [exact Hnd|]. split; [|apply NoDup_singleton].
        intros t Ht Hsame. apply list_elem_of_singleton in Hsame. subst t.
        apply Hnew, Hseen, Ht.
      * apply Forall_app. split; [exact Hfull|]. now apply Forall_singleton.
      * exists (a :: added). rewrite <- app_assoc in *. simpl in *.
        split; [reflexivity|]. split; [now constructor|].
        split; [exact Hnd'|]. split; [exact Hfull'|].
        intros article Hin Hfull_a.
        apply elem_of_cons in Hin as [-> | Hin]; [|now apply Hcomplete].
        rewrite map_app. apply elem_of_app. right. simpl. constructor.
    + destruct (IH _ _ Hrun Hseen Hnd Hfull) as (added & -> & Hsub & Hnd' & Hfull' & Hcomplete).
      exists added. split; [reflexivity|]. split; [now constructor|].
      split; [exact Hnd'|]. split; [exact Hfull'|].
      intros article Hin Hfull_a.
      apply elem_of_cons in Hin as [-> | Hin]; [|now apply Hcomplete].
      destruct Hskip as [Hempty | Hdup]; [congruence|].
      rewrite map_app. apply elem_of_app. left. now apply Hseen.
Qed.

(** What a call that returns has gone through. *)
Lemma fetch_news_firestore_returned (F : Firestore) (start_date end_date : string)
    (categories : list string) (keyword : string) (out : list Article) :
  App.fetch_news_firestore start_date end_date categories keyword = Returned out ->
  (out = [] /\ (strptime start_date = None \/ strptime end_date = None))
  \/ exists start_dt end_dt filtered,
       strptime start_date = Some start_dt
       /\ strptime end_date = Some end_dt
       /\ (if truthy keyword
           then App.filter_keyword (lower keyword)
                  (stream (strftime start_dt) (strftime end_dt)
                     (match categories with [] => None | _ :: _ => Some categories end))
           else Returned (stream (strftime start_dt) (strftime end_dt)
                            (match categories with [] => None | _ :: _ => Some categories end)))
          = Returned filtered
       /\ App.unique_loop filtered [] ∅ = Returned out.
Proof.
  unfold App.fetch_news_firestore.
  destruct (strptime start_date) as [start_dt|]; [|intros [= <-]; left; auto].
  destruct (strptime end_date) as [end_dt|]; [|intros [= <-]; left; auto].
  intros Hrun. right. exists start_dt, end_dt.
  destruct (if truthy keyword then _ else _) as [filtered| |]; try discriminate.
  exists filtered. auto.
Qed.

Lemma unique_loop_from_empty (filtered out : list Article) :
  App.unique_loop filtered [] ∅ = Returned out ->
  out `sublist_of` filtered
  /\ NoDup (map feed_title out)
  /\ Forall (fun o => truthy (feed_title o) = true) out
  /\ (forall article, article ∈ filtered -> truthy (feed_title article) = true ->
        feed_title article ∈ map feed_title out).
Proof.
  intros Hrun. apply unique_loop_returned in Hrun as (added & -> & Hsub & Hrest).
  - simpl. split; [exact Hsub | exact Hrest].
  - intros t. simpl. split; [intros Hin; now apply not_elem_of_empty in Hin | intros Hin; inversion Hin].
  - apply NoDup_nil_2.
  - constructor.
Qed.

(** X17. The feed shows every title once: whenever [fetch_news_firestore]
    returns, the stripped titles of the articles it returns are not empty
    and pairwise different. *)
Theorem feed_titles_are_unique (F : Firestore) (start_date end_date : string)
    (categories : list string) (keyword : string) (out : list Article) :
  App.fetch_news_firestore start_date end_date categories keyword = Returned out ->
  NoDup (map feed_title out) /\ Forall (fun o => truthy (feed_title o) = true) out.
Proof.
  intros Hrun.
  apply fetch_news_firestore_returned in Hrun
    as [[-> _] | (start_dt & end_dt & filtered & _ & _ & _ & Hloop)].
  - split; [apply NoDup_nil_2 | constructor].
  - apply unique_loop_from_empty in Hloop as (_ & Hnd & Hfull & _). now split.
Qed.

(** Searching the sample store for "MARKETS": the first and the third
    document. *)
Lemma sample_feed :
  @App.fetch_news_firestore mock_store "2025-02-01" "2025-02-27" [] "MARKETS"
  = Returned [ {[ "title" := FStr "Markets fall"; "summary" := FStr "Stocks fell." ]};
               {[ "title" := FStr "Rain"; "summary" := FStr "It rained on the markets." ]} ].
Proof. vm_compute. reflexivity. Qed.

Lemma feed_titles_are_unique_witness :
  NoDup (map feed_title
           [ {[ "title" := FStr "Markets fall"; "summary" := FStr "Stocks fell." ]};
             {[ "title" := FStr "Rain"; "summary" := FStr "It rained on the markets." ]} ]).
Proof.
  exact (proj1 (feed_titles_are_unique mock_store "2025-02-01" "2025-02-27" [] "MARKETS" _
                  sample_feed)).
Defined.

(** X18. The feed shows only what the query returned and the keyword
    selects: when both dates parse, the result is a subsequence of the
    documents streamed for the formatted dates and the categories (no
    category filter when none is chosen), and with a non-empty keyword every
    article mentions the lower-cased keyword in its lower-cased title or
    summary; when a date does not parse the result is empty. *)
Theorem feed_shows_selected_documents (F : Firestore) (start_date end_date : string)
    (categories : list string) (keyword : string) (out : list Article) :
  App.fetch_news_firestore start_date end_date categories keyword = Returned out ->
  ((out = [] /\ (strptime start_date = None \/ strptime end_date = None))
   \/ exists start_dt end_dt,
        strptime start_date = Some start_dt
        /\ strptime end_date = Some end_dt
        /\ out `sublist_of`
             stream (strftime start_dt) (strftime end_dt)
               (match categories with [] => None | _ :: _ => Some categories end))
  /\ (truthy keyword = true -> Forall (mentions (lower keyword)) out).
Proof.
  intros Hrun.
  apply fetch_news_firestore_returned in Hrun
    as [[-> Hbad] | (start_dt & end_dt & filtered & Hs & He & Hfilter & Hloop)].
  - split; [left; auto | constructor].
  - apply unique_loop_from_empty in Hloop as (Hsub & _).
    destruct (truthy keyword).
    + apply filter_keyword_returned in Hfilter as (Hsub' & Hall & _). split.
      * right. exists start_dt, end_dt. repeat split; try assumption.
        now transitivity filtered.
      * intros _. rewrite Forall_forall in *. intros o Ho. apply Hall.
        eapply elem_of_sublist; eassumption.
    + injection Hfilter as <-. split; [|discriminate].
      right. exists start_dt, end_dt. auto.
Qed.

Lemma feed_shows_selected_documents_witness :
  Forall (mentions "markets")
    [ {[ "title" := FStr "Markets fall"; "summary" := FStr "Stocks fell." ]};
      {[ "title" := FStr "Rain"; "summary" := FStr "It rained on the markets." ]} ].
Proof.
  exact (proj2 (feed_shows_selected_documents mock_store "2025-02-01" "2025-02-27" []
                  "MARKETS" _ sample_feed) eq_refl).
Defined.

(** X19. Removing duplicates loses no title: when both dates parse, every
    streamed document with a non-empty stripped title (that mentions the
    keyword, if one is given) has an article with the same stripped title
    in the result. *)
Theorem feed_keeps_every_title (F : Firestore) (start_date end_date : string)
    (categories : list string) (keyword : string) (out : list Article)
    (start_dt end_dt : DateTime) (article : Article) :
  App.fetch_news_firestore start_date end_date categories keyword = Returned out ->
  strptime start_date = Some start_dt ->
  strptime end_date = Some end_dt ->
  article ∈ stream (strftime start_dt) (strftime end_dt)
              (match categories with [] => None | _ :: _ => Some categories end) ->
  (truthy keyword = true -> mentions (lower keyword) article) ->
  truthy (feed_title article) = true ->
  feed_title article ∈ map feed_title out.
Proof.
  intros Hrun Hs He Hin Hkw Hfull.
  apply fetch_news_firestore_returned in Hrun
    as [[_ [Hbad | Hbad]] | (start_dt' & end_dt' & filtered & Hs' & He' & Hfilter & Hloop)];
    try congruence.
  assert (start_dt' = start_dt) as -> by congruence.
  assert (end_dt' = end_dt) as -> by congruence.
  apply unique_loop_from_empty in Hloop as (_ & _ & _ & Hcomplete).
  apply Hcomplete; [|exact Hfull].
  destruct (truthy keyword).
  - apply filter_keyword_returned in Hfilter as (_ & _ & Hall). apply Hall; auto.
  - now injection Hfilter as <-.
Qed.

(** The second stored document repeats the title of the first up to
    surrounding spaces: it is dropped, its title stays. *)
Lemma feed_keeps_every_title_witness :
  feed_title {[ "title" := FStr " Markets fall "; "summary" := FStr "Stocks fell again." ]}
  ∈ map feed_title
      [ {[ "title" := FStr "Markets fall"; "summary" := FStr "Stocks fell." ]};
        {[ "title" := FStr "Rain"; "summary" := FStr "It rained on the markets." ]} ].
Proof.
  apply (feed_keeps_every_title mock_store "2025-02-01" "2025-02-27" [] "MARKETS" _
           "2025-02-01" "2025-02-27"
           {[ "title" := FStr " Markets fall "; "summary" := FStr "Stocks fell again." ]}
           sample_feed eq_refl eq_refl).
  - apply list_elem_of_further, list_elem_of_here.
  - intros _. left. vm_compute. reflexivity.
  - vm_compute. reflexivity.
Defined.

(** * Termination of the showcase under a fixed short answer *)

Lemma showcase_chunk_count_bound (sentences : list string) :
  50 * len (Showcase.chunk_sentences sentences Showcase.default_max_words
              Showcase.default_min_words)
  <= total_words sentences.
Proof.
  rewrite chunk_sentences_groups. unfold len. rewrite length_map.
  fold (len (chunk_groups sentences Showcase.default_max_words Showcase.default_min_words)).
  etransitivity; [apply (total_words_concat_floor 50), chunk_groups_floor|].
  apply total_words_sublist, chunk_groups_sublist.
Qed.

Lemma showcase_more_fuel (C : Capabilities) (fuel extra : nat) (text : string)
    (max_length min_length threshold : Z) (w : World) (summary : string) (w' : World) :
  Showcase.recursive_summarize fuel text max_length min_length threshold w
  = (Some summary, w') ->
  Showcase.recursive_summarize (fuel + extra) text max_length min_length threshold w
  = (Some summary, w').
Proof.
  revert text w. induction fuel as [|fuel IH]; intros text w; [discriminate|].
  change (S fuel + extra)%nat with (S (fuel + extra)).
  rewrite !showcase_unfold.
  destruct (word_count text <=? threshold); [auto|].
  destruct (showcase_pass text max_length min_length w) as [combined w1].
  destruct ((len (sent_tokenize combined) =? 1) || (word_count combined <=? threshold));
    [auto | apply IH].
Qed.

Section ShowcaseFixedReply.

Context (C : Capabilities) (reply : string) (max_length min_length threshold : Z).

Hypothesis generate_fixed : forall st prompt kw, fst (generate st prompt kw) = reply.
Hypothesis reply_short : word_count reply < 50.
Hypothesis copies_keep_words : forall n, adds_no_word (copies reply n).
Hypothesis threshold_nonneg : 0 <= threshold.

Lemma showcase_pass_fixed (text : string) (w : World) :
  fst (showcase_pass text max_length min_length w)
  = copies reply (length (Showcase.chunk_sentences (sent_tokenize text)
                            Showcase.default_max_words Showcase.default_min_words)).
Proof.
  unfold showcase_pass, Showcase.split_into_sentences, bind, ret, copies.
  pose proof (for_each_fixed C reply
                (fun chunk => Showcase.model_summarize chunk max_length min_length [])
                (Showcase.chunk_sentences (sent_tokenize text) Showcase.default_max_words
                   Showcase.default_min_words) w) as Hf.
  destruct (for_each _ _ w) as [summaries w']. simpl in *. rewrite Hf; [reflexivity|].
  intros chunk w0. unfold Showcase.model_summarize, invoke_model.
  pose proof (generate_fixed (model_state w0) ("summarize: " +:+ chunk)
                (showcase_kwargs max_length min_length)) as Hreply.
  change (showcase_kwargs max_length min_length)
    with ([("max_length", PyInt max_length); ("min_length", PyInt min_length)]
          ++ [] ++ [("early_stopping", PyBool true)]) in Hreply.
  destruct (generate _ _ _) as [out st']. exact Hreply.
Qed.

Lemma showcase_pass_shrinks (text : string) (w : World) :
  adds_no_word text ->
  threshold < word_count text ->
  word_count (fst (showcase_pass text max_length min_length w)) < word_count text.
Proof.
  intros Hkeep Hlong.
  rewrite showcase_pass_fixed, (word_count_copies reply).
  pose proof (showcase_chunk_count_bound (sent_tokenize text)) as Hn.
  pose proof (word_count_nonneg reply) as Hr.
  unfold adds_no_word in Hkeep. unfold len in Hn.
  set (n := Z.of_nat (length (Showcase.chunk_sentences (sent_tokenize text)
                                Showcase.default_max_words Showcase.default_min_words))) in *.
  nia.
Qed.

(** When a pass leaves more than [threshold] words, the quotient by the
    floor 50 has gone down. *)
Lemma showcase_pass_measure (text : string) (w : World) :
  adds_no_word text ->
  threshold < word_count (fst (showcase_pass text max_length min_length w)) ->
  word_count (fst (showcase_pass text max_length min_length w)) / 50 < word_count text / 50.
Proof.
  intros Hkeep Hlong. rewrite showcase_pass_fixed, (word_count_copies reply) in *.
  pose proof (showcase_chunk_count_bound (sent_tokenize text)) as Hn.
  pose proof (word_count_nonneg reply) as Hr.
  unfold adds_no_word in Hkeep. unfold len in Hn.
  set (n := Z.of_nat (length (Showcase.chunk_sentences (sent_tokenize text)
                                Showcase.default_max_words Showcase.default_min_words))) in *.
  assert (Hpos : 1 <= n) by nia.
  apply Z.lt_le_trans with n.
  - apply Z.div_lt_upper_bound; nia.
  - apply Z.div_le_lower_bound; nia.
Qed.

Lemma showcase_terminates_within (n : nat) (text : string) (w : World) :
  adds_no_word text ->
  word_count text / 50 <= Z.of_nat n ->
  exists summary w',
    Showcase.recursive_summarize (S n) text max_length min_length threshold w
    = (Some summary, w').
Proof.
  revert text w. induction n as [|n IH]; intros text w Hkeep Hmeasure;
    rewrite showcase_unfold;
    (destruct (word_count text <=? threshold); [eauto|]);
    pose proof (showcase_pass_measure text w Hkeep) as Hdown;
    pose proof (showcase_pass_fixed text w) as Hcopies;
    destruct (showcase_pass text max_length min_length w) as [combined w1];
    simpl in Hdown, Hcopies;
    (destruct (len (sent_tokenize combined) =? 1); [simpl; eauto|]);
    (destruct (word_count combined <=? threshold) eqn:Hlong; [simpl; eauto|]);
    simpl; apply Z.leb_gt in Hlong; specialize (Hdown Hlong).
  - pose proof (word_count_nonneg combined).
    assert (0 <= word_count combined / 50) by (apply Z.div_pos; lia). lia.
  - apply IH; [rewrite Hcopies; apply copies_keep_words | lia].
Qed.

End ShowcaseFixedReply.

(** X20. The showcase under a model with a fixed short answer.  Let the
    model answer every prompt with one text of fewer than 50 words (the floor
    of a chunk in the showcase), let the threshold be at least 0, and let the
    splitter add no word to the input text nor to any single-space join of
    copies of the answer.  Then (a) at every level that such a run can reach
    above the threshold, [recursive_summarize] goes on with a combined
    summary of strictly fewer words; and (b) [recursive_summarize] returns a
    summary within [word_count text / 50 + 1] levels; more fuel gives the
    same result. *)
Theorem showcase_terminates_under_fixed_reply (C : Capabilities) (reply : string)
    (max_length min_length threshold : Z) (text : string) (w : World) :
  (forall st prompt kw, fst (generate st prompt kw) = reply) ->
  word_count reply < 50 ->
  0 <= threshold ->
  adds_no_word text ->
  (forall n, adds_no_word (copies reply n)) ->
  (forall fuel level w0,
     level = text \/ (exists n, level = copies reply n) ->
     threshold < word_count level ->
     exists combined w1,
       word_count combined < word_count level
       /\ Showcase.recursive_summarize (S fuel) level max_length min_length threshold w0
          = (if (len (sent_tokenize combined) =? 1) || (word_count combined <=? threshold)
             then (Some combined, w1)
             else Showcase.recursive_summarize fuel combined max_length min_length
                    threshold w1))
  /\ exists summary w',
       forall fuel, (S (Z.to_nat (word_count text / 50)) <= fuel)%nat ->
         Showcase.recursive_summarize fuel text max_length min_length threshold w
         = (Some summary, w').
Proof.
  intros Hfixed Hshort Hthr Hkeep Hcopies. split.
  - intros fuel level w0 Hlevel Hlong.
    assert (Hkeep' : adds_no_word level)
      by (destruct Hlevel as [-> | [n ->]]; [exact Hkeep | apply Hcopies]).
    pose proof (showcase_pass_shrinks C reply max_length min_length threshold
                  Hfixed Hshort Hthr level w0 Hkeep' Hlong) as Hshrink.
    rewrite showcase_unfold.
    destruct (showcase_pass level max_length min_length w0) as [combined w1].
    exists combined, w1. split; [exact Hshrink|].
    destruct (word_count level <=? threshold) eqn:Hcmp; [|reflexivity].
    apply Z.leb_le in Hcmp. lia.
  - destruct (showcase_terminates_within C reply max_length min_length threshold
                Hfixed Hshort Hcopies Hthr
                (Z.to_nat (word_count text / 50)) text w Hkeep) as (summary & w' & Hrun).
    { pose proof (word_count_nonneg text).
      assert (0 <= word_count text / 50) by (apply Z.div_pos; lia). lia. }
    exists summary, w'. intros fuel Hfuel.
    replace fuel with (S (Z.to_nat (word_count text / 50))
                       + (fuel - S (Z.to_nat (word_count text / 50))))%nat by lia.
    now apply showcase_more_fuel.
Qed.

Lemma showcase_terminates_under_fixed_reply_witness :
  exists summary w',
    forall fuel, (25 <= fuel)%nat ->
      Showcase.recursive_summarize fuel twelve_sentences 150 30 30
        (fixed_start forty_word_reply) = (Some summary, w').
Proof.
  destruct (showcase_terminates_under_fixed_reply (fixed_reply forty_word_reply)
              forty_word_reply 150 30 30 twelve_sentences (fixed_start forty_word_reply))
    as (_ & summary & w' & Hrun).
  - reflexivity.
  - vm_compute. reflexivity.
  - lia.
  - apply mock_adds_no_word.
  - intros n. apply mock_adds_no_word.
  - exists summary, w'. intros fuel Hfuel. apply Hrun.
    replace (S (Z.to_nat (word_count twelve_sentences / 50))) with 25%nat
      by (vm_compute; reflexivity).
    exact Hfuel.
Defined.

(** The condition on the splitter is needed here too: behind a splitter that
    cuts inside a white-space token, the run of the showcase on a 39-word
    answer, under its default lengths, returns for no fuel. *)
Lemma showcase_looping_reply_pass (w : @World (marked_reply showcase_looping_reply)) :
  fst (showcase_pass showcase_looping_reply Showcase.default_max_length
         Showcase.default_min_length w) = showcase_looping_reply.
Proof.
  rewrite (showcase_pass_fixed (marked_reply showcase_looping_reply) showcase_looping_reply)
    by reflexivity.
  reflexivity.
Qed.

Example showcase_looping_reply_never_returns (fuel : nat)
    (w : @World (marked_reply showcase_looping_reply)) :
  fst (Showcase.iterative_summarization fuel showcase_looping_reply
         Showcase.default_max_length Showcase.default_min_length w) = None.
Proof.
  unfold Showcase.iterative_summarization.
  revert w. induction fuel as [|fuel IH]; intros w; [reflexivity|].
  rewrite showcase_unfold.
  replace (word_count showcase_looping_reply <=? Showcase.default_min_length) with false
    by (vm_compute; reflexivity).
  pose proof (showcase_looping_reply_pass w) as Hsame.
  destruct (showcase_pass _ _ _ w) as [combined w1]. simpl in Hsame. subst combined.
  replace (len (sent_tokenize showcase_looping_reply) =? 1) with false
    by (vm_compute; reflexivity).
  replace (word_count showcase_looping_reply <=? Showcase.default_min_length) with false
    by (vm_compute; reflexivity).
  apply IH.
Qed.
